(** * handler: typed HTTP handler generator (handler/generator.go)

    A shallow embedding of the declaration walker ([genDecl]), the
    per-request driver ([generate]), the template emitter ([build],
    [handlerWrap]), the formatter fallback ([format]) and the top-level
    run ([main]) of the generator, followed by the properties of the
    emitted document and of the emitted adapters. *)

From Stdlib Require Import String Ascii List Bool Arith Lia DecimalString.
Import ListNotations.
Open Scope string_scope.
Open Scope list_scope.

Set Implicit Arguments.
Set Warnings "-register-all".

(** String concatenation; [++] is kept for lists. *)
Infix "+++" := String.append (right associativity, at level 60).

(** ** Text helpers *)

Definition nl : string := String "010"%char EmptyString.
Definition tab : string := String "009"%char EmptyString.
Definition quote : string := String "034"%char EmptyString.

(** [strings.ToUpper] on ASCII text: on a string of bytes below 128 it is
    what the library computes; bytes from 128 on, which the library reads
    as UTF-8 and maps by the Unicode tables, are left as they are, so a
    statement that depends on the value of [ToUpper] is made of ASCII
    strings ([asciiOnly]). *)
Definition upperByte (c : ascii) : ascii :=
  let n := nat_of_ascii c in
  if ((97 <=? n)%nat && (n <=? 122)%nat)%bool then ascii_of_nat (n - 32) else c.

Fixpoint ToUpper (s : string) : string :=
  match s with
  | EmptyString => EmptyString
  | String c r => String (upperByte c) (ToUpper r)
  end.

Definition asciiByte (c : ascii) : bool := (nat_of_ascii c <? 128)%nat.

Fixpoint asciiOnly (s : string) : bool :=
  match s with
  | EmptyString => true
  | String c r => (asciiByte c && asciiOnly r)%bool
  end.

(** [strings.Split(s, ",")]. *)
Fixpoint Split (s : string) : list string :=
  match s with
  | EmptyString => [EmptyString]
  | String c r =>
      if Ascii.eqb c ","%char then EmptyString :: Split r
      else match Split r with
           | h :: t => String c h :: t
           | [] => [String c EmptyString]
           end
  end.

(** All the strings of a list, one after the other. *)
Definition concatAll (l : list string) : string := fold_right String.append EmptyString l.

(** [strings.Join(a, sep)]. *)
Definition Join (a : list string) (sep : string) : string := String.concat sep a.

(** [%d] of a non-negative [int]. *)
Definition decimal (n : nat) : string := NilZero.string_of_uint (Nat.to_uint n).

(** ** Syntax trees (the part of go/ast the walker looks at) *)

(** Type expressions of a parameter.  In a type position the parser only
    builds a selector whose [X] is an identifier, so [X] is kept as its
    name, which is what [%s] prints for it. *)
Inductive Expr : Type :=
| Ident (Name : string)
| SelectorExpr (X Sel : string)
| StarExpr (X : Expr)
| ArrayType (Elt : Expr)
| MapType (Key Value : Expr)
| Ellipsis (Elt : Expr)
| OtherExpr.

(** One entry of [Params.List]: a group of names sharing a type. *)
Record Field : Type := { Names : list string; Type_ : Expr }.

(** Syntax nodes.  A [FuncDecl] keeps what [genDecl] reads: [Name.Name]
    and [Type.Params.List]; its receiver and body are never visited
    because the walker answers [false] on it. *)
Inductive Node : Type :=
| AstFile (PkgName : string) (Decls : list Node)
| FuncDecl (Name : string) (Params : list Field)
| OtherNode (children : list Node).

(** [ast.Inspect]: depth-first, calling [f] on a node and, when it answers
    [true], on its children in order.  (The closing call [f(nil)] is not a
    [*ast.FuncDecl], so [genDecl] answers [true] and changes nothing.) *)
Fixpoint Inspect (S : Type) (f : Node -> S -> S * bool) (node : Node) (s : S) : S :=
  let (s', descend) := f node s in
  if descend then
    match node with
    | FuncDecl _ _ => s'
    | AstFile _ ds => fold_left (fun acc c => Inspect f c acc) ds s'
    | OtherNode ds => fold_left (fun acc c => Inspect f c acc) ds s'
    end
  else s'.

(** ** Generator state *)

(** [File]: a parsed file and the per-request fields.  The source
    announces the last four as reset for each request; [generate] assigns
    [funcName] and nothing assigns [encodingPkgName]. *)
Record File : Type := {
  file : option Node;
  funcName : string;
  encodingPkgName : string;
  paramfullname : string;
  found : bool
}.

Record Package : Type := {
  dir : string;
  name : string;
  files : list File
}.

Record Generator : Type := {
  buf : string;
  pkg : Package
}.

Definition set_funcName (f : File) (v : string) : File :=
  {| file := file f; funcName := v; encodingPkgName := encodingPkgName f;
     paramfullname := paramfullname f; found := found f |}.

Definition set_paramfullname (f : File) (v : string) : File :=
  {| file := file f; funcName := funcName f; encodingPkgName := encodingPkgName f;
     paramfullname := v; found := found f |}.

Definition set_found (f : File) (v : bool) : File :=
  {| file := file f; funcName := funcName f; encodingPkgName := encodingPkgName f;
     paramfullname := paramfullname f; found := v |}.

Definition set_files (p : Package) (fs : list File) : Package :=
  {| dir := dir p; name := name p; files := fs |}.

(** ** Diagnostics and other observable output *)

Inductive Event : Type :=
| LogArity (fn : string) (n : nat)
    (* log.Printf("%s should take only one parameter, found %d instead") *)
| LogTypeShape (v : Expr)
    (* log.Printf("Could not guess var full name, type not expected: %v") *)
| PrintNotFound (fn : string)
    (* fmt.Printf("Func not found: %s") *)
| LogFormatWarning
    (* the two log.Printf("warning: ...") lines of format *)
| LogFatal (what : string)
    (* log.Fatalf / log.Fatal; [what] abbreviates the message *)
| PrintUsage.

(** The text of the arity diagnostic. *)
Definition arityMessage (fn : string) (n : nat) : string :=
  fn +++ " should take only one parameter, found " +++ decimal n +++ " instead".

(** ** genDecl *)

Definition genDecl (node : Node) (st : File * list Event) : (File * list Event) * bool :=
  let (f, log) := st in
  match node with
  | FuncDecl declName params =>
      if String.eqb declName (funcName f) then
        if negb (length params =? 1)%nat then
          ((f, log ++ [LogArity (funcName f) (length params)]), false)
        else
          match Type_ (nth 0 params {| Names := []; Type_ := OtherExpr |}) with
          | Ident v => ((set_found (set_paramfullname f v) true, log), false)
          | SelectorExpr x sel =>
              ((set_found (set_paramfullname f (x +++ "." +++ sel)) true, log), false)
          | v => ((f, log ++ [LogTypeShape v]), false)
          end
      else ((f, log), false)
  | _ => ((f, log), true)
  end.

(** ** The adapter template *)

Record Handler : Type := { Func : string; EncodingPkg : string; T : string }.

Inductive Piece : Type :=
| Text (s : string)
| Dot (field : Handler -> string)
| DotPipe (field : Handler -> string) (fn : string -> string).

Definition handlerWrap : list Piece :=
  [ Text nl;
    Text "func "; Dot Func; Text "Handler"; DotPipe EncodingPkg ToUpper;
      Text "(w http.ResponseWriter, r *http.Request) {"; Text nl;
    Text tab; Text "x := "; Dot T; Text "{}"; Text nl;
    Text tab; Text "err := "; Dot EncodingPkg; Text ".NewDecoder(r.Body).Decode(&x)"; Text nl;
    Text tab; Text "if err != nil {"; Text nl;
    Text tab; Text tab; Text "w.WriteHeader(http.StatusBadRequest)"; Text nl;
    Text tab; Text tab; Text "return"; Text nl;
    Text tab; Text "}"; Text nl;
    Text tab; Text "resp, s := "; Dot Func; Text "(x)"; Text nl;
    Text tab; Text "w.WriteHeader(s)"; Text nl;
    Text tab; Dot EncodingPkg; Text ".NewEncoder(w).Encode(resp)"; Text nl;
    Text "}"; Text nl ].

Definition piece (h : Handler) (p : Piece) : string :=
  match p with
  | Text s => s
  | Dot field => field h
  | DotPipe field fn => fn (field h)
  end.

(** [t.Execute(&buf, h)]: the text appended to the buffer. *)
Fixpoint Execute (t : list Piece) (h : Handler) : string :=
  match t with
  | [] => EmptyString
  | p :: rest => piece h p +++ Execute rest h
  end.

(** [build]: render one adapter at the end of the buffer.  The template is
    a constant and every field is a string, so [Execute] cannot fail and
    [checkError] never exits. *)
Definition build (g : Generator) (funcName pkgName paramfullname : string) : Generator :=
  {| buf := buf g +++ Execute handlerWrap
                      {| Func := funcName; EncodingPkg := pkgName; T := paramfullname |};
     pkg := pkg g |}.

(** ** generate *)

(** The loop over [g.pkg.files]: each file gets the requested name, is
    walked, and a file whose [found] flag is set gives its
    [paramfullname] to the result. *)
Fixpoint scanFiles (fn : string) (fs : list File) (log : list Event)
         (fnd : bool) (pfn : string) : list File * list Event * bool * string :=
  match fs with
  | [] => ([], log, fnd, pfn)
  | f :: rest =>
      let f1 := set_funcName f fn in
      match file f1 with
      | Some ast =>
          let (f2, log2) := Inspect genDecl ast (f1, log) in
          let '(rest', log3, fnd', pfn') :=
            if found f2 then scanFiles fn rest log2 true (paramfullname f2)
            else scanFiles fn rest log2 fnd pfn in
          (f2 :: rest', log3, fnd', pfn')
      | None =>
          let '(rest', log3, fnd', pfn') := scanFiles fn rest log fnd pfn in
          (f1 :: rest', log3, fnd', pfn')
      end
  end.

Definition generate (fn encodingPkg : string) (st : Generator * list Event)
  : Generator * list Event :=
  let (g, log) := st in
  let '(fs, log', fnd, pfn) := scanFiles fn (files (pkg g)) log false "" in
  let g' := {| buf := buf g; pkg := set_files (pkg g) fs |} in
  if fnd then (build g' fn encodingPkg pfn, log')
  else (g', log' ++ [PrintNotFound fn]).

(** [Printf]: append formatted text to the buffer (the text is given
    already formatted). *)
Definition Printf (g : Generator) (text : string) : Generator :=
  {| buf := buf g +++ text; pkg := pkg g |}.

(** ** The environment of a run *)

(** What the run asks of the operating system, the Go tool chain and the
    standard library.  [None] and [false] stand for a returned error. *)
Record Env : Type := {
  isDir : string -> option bool;               (* os.Stat(name), info.IsDir() *)
  ImportDir : string -> option (list string);  (* build.Default.ImportDir: GoFiles, CgoFiles, SFiles *)
  ParseFile : string -> option Node;           (* parser.ParseFile *)
  Check : list Node -> bool;                   (* types.Config.Check *)
  Import : string -> option string;            (* build.Import(path, ".", 0): the package's Name *)
  Source : string -> option string;            (* format.Source *)
  WriteFile : string -> string -> bool;        (* ioutil.WriteFile *)
  filepathDir : string -> string;
  filepathJoin : string -> string -> string
}.

(** The command line: [os.Args[1:]], the three flags and [flag.Args()]. *)
Record Invocation : Type := {
  osArgs : list string;
  funcNames : string;
  encodingPkgNames : string;
  output : string;
  flagArgs : list string
}.

(** The end of a run: exit code, the buffer as it stood, what was handed
    to [WriteFile], and the diagnostics in order. *)
Record Outcome : Type := {
  exitCode : nat;
  document : string;
  written : option (string * string);
  trace : list Event
}.

(** ** Parsing the package *)

Definition HasSuffix (s suffix : string) : bool :=
  ((String.length suffix <=? String.length s)%nat &&
   String.eqb (substring (String.length s - String.length suffix) (String.length suffix) s) suffix)%bool.

Definition prefixDirectory (env : Env) (directory : string) (names : list string) : list string :=
  if String.eqb directory "." then names else map (filepathJoin env directory) names.

Definition newFile (ast : Node) : File :=
  {| file := Some ast; funcName := ""; encodingPkgName := ""; paramfullname := ""; found := false |}.

Definition fileName (ast : Node) : string :=
  match ast with AstFile n _ => n | _ => "" end.

(** The loop of [parsePackage]: names without the [.go] suffix are
    skipped; [None] is [log.Fatalf("parsing package ...")]. *)
Fixpoint parseNames (env : Env) (names : list string) : option (list Node) :=
  match names with
  | [] => Some []
  | n :: rest =>
      if negb (HasSuffix n ".go") then parseNames env rest
      else match ParseFile env n with
           | None => None
           | Some parsedFile =>
               match parseNames env rest with
               | None => None
               | Some astFiles => Some (parsedFile :: astFiles)
               end
           end
  end.

Definition parsePackage (env : Env) (directory : string) (names : list string) : option Package :=
  match parseNames env names with
  | None => None
  | Some [] => None
  | Some (first :: more) =>
      if Check env (first :: more) then
        Some {| dir := directory; name := fileName first; files := map newFile (first :: more) |}
      else None
  end.

Definition parsePackageDir (env : Env) (directory : string) : option Package :=
  match ImportDir env directory with
  | None => None
  | Some names => parsePackage env directory (prefixDirectory env directory names)
  end.

Definition parsePackageFiles (env : Env) (names : list string) : option Package :=
  parsePackage env "." names.

(** ** format *)

Definition format (env : Env) (g : Generator) (log : list Event) : string * list Event :=
  match Source env (buf g) with
  | None => (buf g, log ++ [LogFormatWarning])
  | Some src => (src, log)
  end.

(** ** main *)

(** The import line of one requested package. *)
Definition importLine (encodingPkgName : string) : string :=
  "import " +++ quote +++ encodingPkgName +++ quote +++ nl.

(** [for _, encodingPkgName := range encodings]: the existence check and
    the import lines.  [inl] carries the package that could not be used
    and the generator as it stood. *)
Fixpoint importLines (env : Env) (encodings : list string) (g : Generator)
  : (string * Generator) + Generator :=
  match encodings with
  | [] => inr g
  | encodingPkgName :: rest =>
      match Import env encodingPkgName with
      | None => inl (encodingPkgName, g)
      | Some _ =>
          importLines env rest (Printf g (importLine encodingPkgName))
      end
  end.

(** [pkg, _ := build.Import(...)] followed by [pkg.Name]. *)
Definition importName (env : Env) (encodingPkgName : string) : string :=
  match Import env encodingPkgName with Some n => n | None => "" end.

(** The inner loop: one [generate] per encoding, for one function name. *)
Definition generateEncodings (env : Env) (fn : string) (encodings : list string)
           (st : Generator * list Event) : Generator * list Event :=
  fold_left (fun acc encodingPkgName => generate fn (importName env encodingPkgName) acc)
            encodings st.

(** The outer loop over the requested function names. *)
Definition generateFuncs (env : Env) (funcs encodings : list string)
           (st : Generator * list Event) : Generator * list Event :=
  fold_left (fun acc fn => generateEncodings env fn encodings acc) funcs st.

Definition stop (code : nat) (doc : string) (log : list Event) : Outcome :=
  {| exitCode := code; document := doc; written := None; trace := log |}.

(** Lines 133 to 143: directory or file list. *)
Definition load (env : Env) (args : list string) : option (string * Package) :=
  match args with
  | [a] =>
      match isDir env a with
      | None => None
      | Some true =>
          match parsePackageDir env a with
          | None => None
          | Some p => Some (a, p)
          end
      | Some false =>
          match parsePackageFiles env args with
          | None => None
          | Some p => Some (filepathDir env a, p)
          end
      end
  | _ =>
      match parsePackageFiles env args with
      | None => None
      | Some p => Some (filepathDir env (hd "" args), p)
      end
  end.

Definition banner (inv : Invocation) : string :=
  "// Code generated by " +++ quote +++ "handler " +++ Join (osArgs inv) " " +++ quote
    +++ "; DO NOT EDIT" +++ nl.

Definition header (inv : Invocation) (p : Package) : Generator :=
  let g := {| buf := ""; pkg := p |} in
  let g := Printf g (banner inv) in
  let g := Printf g nl in
  let g := Printf g ("package " +++ name p +++ nl) in
  Printf g nl.

(** [-output], or [generated_handlers.go] in the source directory. *)
Definition outputName (env : Env) (inv : Invocation) (d : string) : string :=
  if String.eqb (output inv) "" then filepathJoin env d "generated_handlers.go"
  else output inv.

(** The end of [main]: format the buffer and write the file. *)
Definition finish (env : Env) (inv : Invocation) (d : string)
           (st : Generator * list Event) : Outcome :=
  let (g, log) := st in
  let (src, log') := format env g log in
  if WriteFile env (outputName env inv d) src then
    {| exitCode := 0; document := buf g;
       written := Some (outputName env inv d, src); trace := log' |}
  else
    {| exitCode := 1; document := buf g;
       written := None; trace := log' ++ [LogFatal "writing output"] |}.

(** [flag.Args()], or the current directory. *)
Definition sourceArgs (inv : Invocation) : list string :=
  match flagArgs inv with [] => ["."] | _ => flagArgs inv end.

(** [main] from line 118 on, with the flags as [flag.Parse] set them;
    [process], below, has the call of [flag.Parse] before it. *)
Definition main (env : Env) (inv : Invocation) : Outcome :=
  if ((String.length (funcNames inv) =? 0)%nat || (String.length (encodingPkgNames inv) =? 0)%nat)%bool
  then stop 2 "" [PrintUsage]
  else
    let funcs := Split (funcNames inv) in
    let encodings := Split (encodingPkgNames inv) in
    match load env (sourceArgs inv) with
    | None => stop 1 "" [LogFatal "cannot process package"]
    | Some (d, p) =>
        match importLines env encodings (header inv p) with
        | inl (bad, g) => stop 1 (buf g) [LogFatal ("cannot use pkg " +++ bad)]
        | inr g0 => finish env inv d (generateFuncs env funcs encodings (g0, []))
        end
    end.

(** [flag.Parse()] comes first (line 117).  The flag package either ends
    the process itself, with a code of its choosing and the usage printed
    (an undefined flag, a malformed value, a request for help), or returns
    with the flags set, and [main] goes on. *)
Definition process (env : Env) (parsed : nat + Invocation) : Outcome :=
  match parsed with
  | inl code => stop code "" [PrintUsage]
  | inr inv => main env inv
  end.

(** ** The emitted adapter as a program *)

(** The statements the template is made of, the text they print to, and
    what they do when the adapter serves a request. *)
Module Adapter.

Inductive Value : Type :=
| VNil
| VErr
| VInt (n : nat)
| VStr (s : string)
| VZero (T : string).

Inductive GoExpr : Type :=
| Var (x : string)
| StatusBadRequest.      (* http.StatusBadRequest *)

Inductive Stmt : Type :=
| DefineZero (x T : string)                    (* x := T{} *)
| DefineDecode (err pkg x : string)            (* err := pkg.NewDecoder(r.Body).Decode(&x) *)
| IfErrReturn (err : string) (status : GoExpr) (* if err != nil { w.WriteHeader(status); return } *)
| DefineCall (r1 r2 f : string) (args : list string)  (* r1, r2 := f(args...) *)
| WriteHeader (status : GoExpr)                (* w.WriteHeader(status) *)
| Encode (pkg : string) (v : string).          (* pkg.NewEncoder(w).Encode(v) *)

Record FuncDef : Type := { fname : string; body : list Stmt }.

Definition printExpr (e : GoExpr) : string :=
  match e with
  | Var x => x
  | StatusBadRequest => "http.StatusBadRequest"
  end.

Definition printStmt (s : Stmt) : string :=
  match s with
  | DefineZero x T => tab +++ x +++ " := " +++ T +++ "{}" +++ nl
  | DefineDecode err pkg x =>
      tab +++ err +++ " := " +++ pkg +++ ".NewDecoder(r.Body).Decode(&" +++ x +++ ")" +++ nl
  | IfErrReturn err status =>
      tab +++ "if " +++ err +++ " != nil {" +++ nl
      +++ tab +++ tab +++ "w.WriteHeader(" +++ printExpr status +++ ")" +++ nl
      +++ tab +++ tab +++ "return" +++ nl
      +++ tab +++ "}" +++ nl
  | DefineCall r1 r2 f args =>
      tab +++ r1 +++ ", " +++ r2 +++ " := " +++ f +++ "(" +++ String.concat ", " args +++ ")" +++ nl
  | WriteHeader status => tab +++ "w.WriteHeader(" +++ printExpr status +++ ")" +++ nl
  | Encode pkg v => tab +++ pkg +++ ".NewEncoder(w).Encode(" +++ v +++ ")" +++ nl
  end.

Definition printFunc (d : FuncDef) : string :=
  nl +++ "func " +++ fname d +++ "(w http.ResponseWriter, r *http.Request) {" +++ nl
  +++ concatAll (map printStmt (body d)) +++ "}" +++ nl.

(** The synthesized name of an adapter. *)
Definition handlerName (h : Handler) : string :=
  Func h +++ "Handler" +++ ToUpper (EncodingPkg h).

(** The adapter the template spells out for [h]. *)
Definition adapter (h : Handler) : FuncDef :=
  {| fname := handlerName h;
     body := [ DefineZero "x" (T h);
               DefineDecode "err" (EncodingPkg h) "x";
               IfErrReturn "err" StatusBadRequest;
               DefineCall "resp" "s" (Func h) ["x"];
               WriteHeader (Var "s");
               Encode (EncodingPkg h) "resp" ] |}.

(** What a request meets: the decoder of a package filling a variable
    ([None]: it returns an error), and the functions of the package
    under generation, each returning two results. *)
Record Runtime : Type := {
  Decode : string -> Value -> option Value;
  Call : string -> list Value -> Value * Value
}.

(** What the adapter does to the outside, in order. *)
Inductive Effect : Type :=
| Invoked (f : string) (args : list Value)
| HeaderWritten (status : Value)
| Encoded (pkg : string) (v : Value).

Definition Store : Type := list (string * Value).

Fixpoint lookup (st : Store) (x : string) : Value :=
  match st with
  | [] => VNil
  | (y, v) :: rest => if String.eqb x y then v else lookup rest x
  end.

Definition eval (st : Store) (e : GoExpr) : Value :=
  match e with
  | Var x => lookup st x
  | StatusBadRequest => VInt 400
  end.

Definition isNil (v : Value) : bool :=
  match v with VNil => true | _ => false end.

Fixpoint exec (rt : Runtime) (ss : list Stmt) (st : Store) (out : list Effect) : list Effect :=
  match ss with
  | [] => out
  | DefineZero x T :: rest => exec rt rest ((x, VZero T) :: st) out
  | DefineDecode err pkg x :: rest =>
      match Decode rt pkg (lookup st x) with
      | Some v => exec rt rest ((err, VNil) :: (x, v) :: st) out
      | None => exec rt rest ((err, VErr) :: st) out
      end
  | IfErrReturn err status :: rest =>
      if isNil (lookup st err) then exec rt rest st out
      else out ++ [HeaderWritten (eval st status)]
  | DefineCall r1 r2 f args :: rest =>
      let vs := map (lookup st) args in
      let (a, b) := Call rt f vs in
      exec rt rest ((r2, b) :: (r1, a) :: st) (out ++ [Invoked f vs])
  | WriteHeader status :: rest =>
      exec rt rest st (out ++ [HeaderWritten (eval st status)])
  | Encode pkg v :: rest =>
      exec rt rest st (out ++ [Encoded pkg (lookup st v)])
  end.

(** Serving one request with the adapter of [h]. *)
Definition serve (rt : Runtime) (h : Handler) : list Effect :=
  exec rt (body (adapter h)) [] [].

End Adapter.

(** ** Example sources and environments *)

Module Examples.

Definition field (names : list string) (t : Expr) : Field :=
  {| Names := names; Type_ := t |}.

(** [func PutJob(j job) (int, interface{})] in package [jober], after a
    type declaration. *)
Definition joberGo : Node :=
  AstFile "jober" [ OtherNode []; FuncDecl "PutJob" [field ["j"] (Ident "job")] ].

(** [func Import(a A, b B, c C, d z.D) error]. *)
Definition importGo : Node :=
  AstFile "jober"
    [ FuncDecl "Import" [ field ["a"] (Ident "A"); field ["b"] (Ident "B");
                          field ["c"] (Ident "C"); field ["d"] (SelectorExpr "z" "D") ] ].

(** [func F(a, b X) (interface{}, int)]: two parameters in one group. *)
Definition pairGo : Node :=
  AstFile "jober" [ FuncDecl "F" [field ["a"; "b"] (Ident "X")] ].

(** Two methods of one name on different receivers, in two files. *)
Definition methodAGo : Node :=
  AstFile "jober" [ FuncDecl "Put" [field ["x"] (Ident "X1")] ].
Definition methodBGo : Node :=
  AstFile "jober" [ FuncDecl "Put" [field ["x"] (Ident "X2")] ].
Definition otherGo : Node :=
  AstFile "jober" [ FuncDecl "Get" [field ["y"] (SelectorExpr "z" "Y")] ].

(** [func Store(j *job) (interface{}, int)]: a pointer parameter. *)
Definition pointerGo : Node :=
  AstFile "jober" [ FuncDecl "Store" [field ["j"] (StarExpr (Ident "job"))] ].

(** [func G(a, b A, c C)]: three parameters in two groups. *)
Definition tripleGo : Node :=
  AstFile "jober" [ FuncDecl "G" [field ["a"; "b"] (Ident "A"); field ["c"] (Ident "C")] ].

Fixpoint assoc (A : Type) (k : string) (l : list (string * A)) : option A :=
  match l with
  | [] => None
  | (k', v) :: rest => if String.eqb k k' then Some v else assoc k rest
  end.

(** Packages known to the build environment, with their names. *)
Definition packages : list (string * string) :=
  [ ("encoding/json", "json"); ("encoding/xml", "xml");
    ("example.com/codec/JSON", "JSON"); ("example.com/fast/json", "json") ].

(** An environment holding the given files in the current directory;
    [fmt] is the formatter. *)
Definition envOf (srcs : list (string * Node)) (fmt : string -> option string) : Env :=
  {| isDir := fun n => Some (String.eqb n ".");
     ImportDir := fun _ => Some (map fst srcs);
     ParseFile := fun n => assoc n srcs;
     Check := fun _ => true;
     Import := fun p => assoc p packages;
     Source := fmt;
     WriteFile := fun _ _ => true;
     filepathDir := fun _ => ".";
     filepathJoin := fun d n => d +++ "/" +++ n |}.


(** The package of the given files as [parsePackage] leaves it, with an
    empty buffer. *)
Definition generatorOf (asts : list Node) : Generator :=
  {| buf := ""; pkg := {| dir := "."; name := "jober"; files := map newFile asts |} |}.

Definition plain : Env := envOf [] (fun s => Some s).

Definition invocation (funcs encodings : string) : Invocation :=
  {| osArgs := ["-func"; funcs; "-encoding"; encodings];
     funcNames := funcs; encodingPkgNames := encodings;
     output := ""; flagArgs := [] |}.

Definition run (srcs : list (string * Node)) (funcs encodings : string) : Outcome :=
  main (envOf srcs (fun s => Some s)) (invocation funcs encodings).

End Examples.

(** ** Reading a walk off the declarations *)

(** The function declarations [Inspect genDecl] reaches, in visiting
    order: the walker descends into every node but a [FuncDecl]. *)
Fixpoint funcDecls (n : Node) : list (string * list Field) :=
  match n with
  | FuncDecl nm ps => [(nm, ps)]
  | AstFile _ ds => flat_map funcDecls ds
  | OtherNode ds => flat_map funcDecls ds
  end.

(** The type switch of [genDecl] on a parameter list of length one. *)
Definition typeName (ps : list Field) : option string :=
  match ps with
  | [p] =>
      match Type_ p with
      | Ident v => Some v
      | SelectorExpr x sel => Some (x +++ "." +++ sel)
      | _ => None
      end
  | _ => None
  end.

(** One visit of a function declaration. *)
Definition visit (st : File * list Event) (d : string * list Field) : File * list Event :=
  fst (genDecl (FuncDecl (fst d) (snd d)) st).

(** The resolved types of the declarations named [fn], in order. *)
Definition resolved (fn : string) (ds : list (string * list Field)) : list string :=
  flat_map (fun d => if String.eqb (fst d) fn
                     then match typeName (snd d) with Some t => [t] | None => [] end
                     else []) ds.

(** What one declaration named [fn] makes the walker log. *)
Definition declDiag (fn : string) (d : string * list Field) : list Event :=
  if String.eqb (fst d) fn then
    if negb (length (snd d) =? 1)%nat then [LogArity fn (length (snd d))]
    else match Type_ (nth 0 (snd d) {| Names := []; Type_ := OtherExpr |}) with
         | Ident _ => []
         | SelectorExpr _ _ => []
         | v => [LogTypeShape v]
         end
  else [].

Definition fileDecls (f : File) : list (string * list Field) :=
  match file f with Some ast => funcDecls ast | None => [] end.

(** The per-request fields after a run of visits that resolved [ts]. *)
Definition updated (f : File) (ts : list string) : File :=
  match ts with
  | [] => f
  | _ => {| file := file f; funcName := funcName f; encodingPkgName := encodingPkgName f;
            paramfullname := last ts ""; found := true |}
  end.

(** A file after the walk for [fn]. *)
Definition walked (fn : string) (f : File) : File :=
  match file f, resolved fn (fileDecls f) with
  | Some _, t :: ts =>
      {| file := file f; funcName := fn; encodingPkgName := encodingPkgName f;
         paramfullname := last (t :: ts) ""; found := true |}
  | _, _ => set_funcName f fn
  end.

(** A file that hands its [paramfullname] to [generate]. *)
Definition flagged (f : File) : bool :=
  match file f with Some _ => found f | None => false end.

Definition lastFlagged (fs : list File) (pfn : string) : string :=
  fold_left (fun acc f => if flagged f then paramfullname f else acc) fs pfn.

(** What one walk of all the files logs. *)
Definition passDiags (fn : string) (fs : list File) : list Event :=
  flat_map (fun f => flat_map (declDiag fn) (fileDecls f)) fs.

(** The per-request fields as [parsePackage] leaves them. *)
Definition fresh (fs : list File) : Prop :=
  Forall (fun f => found f = false) fs.

(** [fn] names no function declaration of the package. *)
Definition undeclared (fn : string) (fs : list File) : Prop :=
  Forall (fun f => Forall (fun d => fst d <> fn) (fileDecls f)) fs.

(** The adapters one function name gets, one per encoding, and their text. *)
Definition adapters (env : Env) (fn t : string) (encodings : list string) : list Handler :=
  map (fun e => {| Func := fn; EncodingPkg := importName env e; T := t |}) encodings.

Definition render (hs : list Handler) : string :=
  concatAll (map (Execute handlerWrap) hs).

(** What one request of [fn] appends to the buffer and logs, given the
    files as the walk for [fn] leaves them. *)
Definition requestText (env : Env) (fn : string) (fs : list File) (es : list string) : string :=
  if existsb flagged fs then render (adapters env fn (lastFlagged fs "") es) else "".

Definition requestLog (fn : string) (fs : list File) : list Event :=
  passDiags fn fs ++ (if existsb flagged fs then [] else [PrintNotFound fn]).

(** A run that gets as far as the generation loops: both flags are set,
    the package loads as [p] from directory [d], and every requested
    encoding package exists. *)
Definition reaches (env : Env) (inv : Invocation) (d : string) (p : Package) : Prop :=
  funcNames inv <> "" /\ encodingPkgNames inv <> "" /\
  load env (sourceArgs inv) = Some (d, p) /\
  Forall (fun e => Import env e <> None) (Split (encodingPkgNames inv)).

(** The generator as the generation loops find it. *)
Definition prepared (inv : Invocation) (p : Package) : Generator :=
  {| buf := buf (header inv p) +++ concatAll (map importLine (Split (encodingPkgNames inv)));
     pkg := p |}.

(** Every type the declarations named [fn] resolve to, over all files in
    enumeration order. *)
Definition allResolved (fn : string) (fs : list File) : list string :=
  flat_map (fun f => resolved fn (fileDecls f)) fs.

(** No declaration named [fn] gets through the arity check and the type
    switch. *)
Definition unresolved (fn : string) (fs : list File) : Prop :=
  forall f d, In f fs -> In d (fileDecls f) -> fst d = fn -> typeName (snd d) = None.

(** The type shapes the switch of [genDecl] resolves. *)
Definition supported (v : Expr) : bool :=
  match v with
  | Ident _ => true
  | SelectorExpr _ _ => true
  | _ => false
  end.

(** The names [parsePackage] parses. *)
Definition isGo (n : string) : bool := HasSuffix n ".go".

(** What [format] returns for a buffer. *)
Definition outputBytes (env : Env) (doc : string) : string :=
  match Source env doc with Some src => src | None => doc end.

(** The events the generation loops give rise to. *)
Definition perRequest (e : Event) : Prop :=
  match e with
  | LogArity _ _ => True
  | LogTypeShape _ => True
  | PrintNotFound _ => True
  | _ => False
  end.

(** * Properties *)

Lemma append_assoc (a b c : string) : (a +++ b) +++ c = a +++ (b +++ c).
Proof. induction a as [| x a IH]; simpl; [reflexivity | now rewrite IH]. Qed.

Lemma append_nil_r (a : string) : a +++ "" = a.
Proof. induction a as [| x a IH]; simpl; [reflexivity | now rewrite IH]. Qed.

Lemma concatAll_app (l m : list string) : concatAll (l ++ m) = concatAll l +++ concatAll m.
Proof.
  induction l as [| x l IH]; simpl; [reflexivity |].
  now rewrite IH, append_assoc.
Qed.

Lemma render_app (hs ks : list Handler) : render (hs ++ ks) = render hs +++ render ks.
Proof. unfold render. now rewrite map_app, concatAll_app. Qed.

(** ** The walk of one file *)

Section NodeInduction.
Variable P : Node -> Prop.
Hypothesis HFile : forall nm ds, Forall P ds -> P (AstFile nm ds).
Hypothesis HFunc : forall nm ps, P (FuncDecl nm ps).
Hypothesis HOther : forall ds, Forall P ds -> P (OtherNode ds).

Lemma Node_nested_ind : forall n, P n.
Proof.
  fix IH 1. intros [nm ds | nm ps | ds].
  - apply HFile. induction ds as [| d ds IHds]; constructor; [apply IH | exact IHds].
  - apply HFunc.
  - apply HOther. induction ds as [| d ds IHds]; constructor; [apply IH | exact IHds].
Qed.
End NodeInduction.

Lemma fold_left_flat_map (A B S : Type) (g : S -> B -> S) (k : A -> list B)
      (h : S -> A -> S) (l : list A) :
  Forall (fun a => forall s, h s a = fold_left g (k a) s) l ->
  forall s, fold_left h l s = fold_left g (flat_map k l) s.
Proof.
  induction 1 as [| a l Ha _ IH]; intros s; simpl.
  - reflexivity.
  - rewrite fold_left_app, <- Ha. apply IH.
Qed.

Lemma genDecl_FuncDecl_stops nm ps st : snd (genDecl (FuncDecl nm ps) st) = false.
Proof.
  destruct st as [f log]. simpl.
  destruct (String.eqb nm (funcName f)); [| reflexivity].
  destruct (negb (length ps =? 1)%nat); [reflexivity |].
  destruct (Type_ (nth 0 ps _)); reflexivity.
Qed.

(** The walker sees exactly the function declarations, in order. *)
Lemma Inspect_genDecl (n : Node) :
  forall st, Inspect genDecl n st = fold_left visit (funcDecls n) st.
Proof.
  induction n as [nm ds IH | nm ps | ds IH] using Node_nested_ind; intros [f log].
  - simpl. now apply fold_left_flat_map.
  - cbn [Inspect funcDecls fold_left]. unfold visit. cbn [fst snd].
    pose proof (genDecl_FuncDecl_stops nm ps (f, log)) as Hs.
    destruct (genDecl (FuncDecl nm ps) (f, log)) as [s' b].
    simpl in Hs. subst b. reflexivity.
  - simpl. now apply fold_left_flat_map.
Qed.

Lemma visit_step (fn : string) (f : File) (log : list Event) (d : string * list Field) :
  funcName f = fn ->
  visit (f, log) d = (updated f (resolved fn [d]), log ++ declDiag fn d).
Proof.
  intros <-. destruct d as [nm ps]. unfold visit, resolved, declDiag. simpl.
  destruct (String.eqb nm (funcName f)); simpl; [| now rewrite app_nil_r].
  destruct ps as [| p [| q ps]]; simpl; try reflexivity.
  destruct p as [ns t]; destruct t; simpl; rewrite ?app_nil_r; reflexivity.
Qed.

Lemma last_app_cons (A : Type) (l : list A) (u : A) (us : list A) (d : A) :
  last (l ++ u :: us) d = last (u :: us) d.
Proof.
  induction l as [| a l IH]; [reflexivity |].
  simpl app. rewrite <- IH. simpl. destruct (l ++ u :: us) eqn:E; [| reflexivity].
  now destruct l.
Qed.

Lemma updated_funcName f ts : funcName (updated f ts) = funcName f.
Proof. destruct ts; reflexivity. Qed.

Lemma updated_app f ts us : updated (updated f ts) us = updated f (ts ++ us).
Proof.
  destruct us as [| u us].
  - now rewrite app_nil_r.
  - destruct ts as [| t ts]; [reflexivity |].
    unfold updated at 1. simpl app.
    change (updated f (t :: ts ++ u :: us)) with
      {| file := file f; funcName := funcName f; encodingPkgName := encodingPkgName f;
         paramfullname := last (t :: ts ++ u :: us) ""; found := true |}.
    f_equal. change (t :: ts ++ u :: us) with ((t :: ts) ++ u :: us).
    now rewrite last_app_cons.
Qed.

Lemma resolved_app fn ds es : resolved fn (ds ++ es) = resolved fn ds ++ resolved fn es.
Proof. apply flat_map_app. Qed.

Lemma visits_spec (fn : string) (ds : list (string * list Field)) :
  forall f log, funcName f = fn ->
  fold_left visit ds (f, log) = (updated f (resolved fn ds), log ++ flat_map (declDiag fn) ds).
Proof.
  induction ds as [| d ds IH]; intros f log Hf.
  - simpl. now rewrite app_nil_r.
  - simpl fold_left. rewrite visit_step with (fn := fn) by exact Hf.
    rewrite IH by (now rewrite updated_funcName).
    rewrite updated_app, <- app_assoc.
    change (d :: ds) with ([d] ++ ds). rewrite resolved_app, flat_map_app.
    simpl (flat_map (declDiag fn) [d]). now rewrite app_nil_r.
Qed.

Lemma walk_file (fn : string) (f : File) (ast : Node) (log : list Event) :
  file f = Some ast ->
  Inspect genDecl ast (set_funcName f fn, log)
  = (walked fn f, log ++ flat_map (declDiag fn) (fileDecls f)).
Proof.
  intros Hf. rewrite Inspect_genDecl, visits_spec with (fn := fn) by reflexivity.
  unfold walked, fileDecls. rewrite Hf.
  destruct (resolved fn (funcDecls ast)); simpl; rewrite ?Hf; reflexivity.
Qed.

Lemma walked_file fn f : file (walked fn f) = file f.
Proof.
  unfold walked. destruct (file f) eqn:E; [destruct (resolved fn (fileDecls f)) |];
    simpl; congruence.
Qed.

Lemma walked_funcName fn f : funcName (walked fn f) = fn.
Proof.
  unfold walked. destruct (file f); [destruct (resolved fn (fileDecls f)) |]; reflexivity.
Qed.

Lemma walked_fileDecls fn f : fileDecls (walked fn f) = fileDecls f.
Proof. unfold fileDecls. now rewrite walked_file. Qed.

(** ** The loop over the files *)

Lemma scanFiles_spec (fn : string) (fs : list File) :
  forall log fnd pfn,
    scanFiles fn fs log fnd pfn
    = (map (walked fn) fs, log ++ passDiags fn fs,
       (fnd || existsb flagged (map (walked fn) fs))%bool,
       lastFlagged (map (walked fn) fs) pfn).
Proof.
  induction fs as [| f fs IH]; intros log fnd pfn.
  - simpl. now rewrite app_nil_r, orb_false_r.
  - cbn [scanFiles]. cbn [file set_funcName].
    destruct (file f) as [ast |] eqn:Hf.
    + rewrite walk_file by exact Hf.
      assert (Hfl : flagged (walked fn f) = found (walked fn f)).
      { unfold flagged. now rewrite walked_file, Hf. }
      unfold passDiags, lastFlagged. cbn [map flat_map existsb fold_left].
      rewrite Hfl. destruct (found (walked fn f)); rewrite IH;
        unfold passDiags, lastFlagged; rewrite <- app_assoc; try reflexivity.
      now rewrite orb_true_r.
    + rewrite IH.
      assert (Hw : walked fn f = set_funcName f fn) by (unfold walked; now rewrite Hf).
      assert (Hfl : flagged (walked fn f) = false).
      { unfold flagged. now rewrite walked_file, Hf. }
      unfold passDiags, lastFlagged, fileDecls. cbn [map flat_map existsb fold_left].
      rewrite Hfl, Hf, Hw. reflexivity.
Qed.

Lemma generate_spec (fn enc : string) (g : Generator) (log : list Event) :
  generate fn enc (g, log)
  = let fs := map (walked fn) (files (pkg g)) in
    let g' := {| buf := buf g; pkg := set_files (pkg g) fs |} in
    if existsb flagged fs
    then (build g' fn enc (lastFlagged fs ""), log ++ passDiags fn (files (pkg g)))
    else (g', (log ++ passDiags fn (files (pkg g))) ++ [PrintNotFound fn]).
Proof.
  unfold generate. rewrite scanFiles_spec. reflexivity.
Qed.

Lemma walked_idem fn f : walked fn (walked fn f) = walked fn f.
Proof.
  unfold walked at 1. rewrite walked_file, walked_fileDecls.
  unfold walked. destruct (file f) eqn:E; [destruct (resolved fn (fileDecls f)) |];
    simpl; rewrite ?E; reflexivity.
Qed.

Lemma map_walked_idem fn fs : map (walked fn) (map (walked fn) fs) = map (walked fn) fs.
Proof. rewrite map_map. apply map_ext. intros f. apply walked_idem. Qed.

Lemma passDiags_walked fn fn' fs : passDiags fn (map (walked fn') fs) = passDiags fn fs.
Proof.
  unfold passDiags. induction fs as [| f fs IH]; simpl; [reflexivity |].
  now rewrite IH, walked_fileDecls.
Qed.

(** ** The loop over the encodings *)

Lemma generate_step (fn enc : string) (g : Generator) (log : list Event) :
  generate fn enc (g, log)
  = let fs := map (walked fn) (files (pkg g)) in
    ({| buf := buf g +++ (if existsb flagged fs
                          then Execute handlerWrap
                                 {| Func := fn; EncodingPkg := enc; T := lastFlagged fs "" |}
                          else "");
        pkg := set_files (pkg g) fs |},
     log ++ requestLog fn fs).
Proof.
  rewrite generate_spec. cbv zeta. unfold requestLog. rewrite passDiags_walked.
  destruct (existsb flagged (map (walked fn) (files (pkg g)))).
  - unfold build. simpl. now rewrite app_nil_r.
  - rewrite append_nil_r, app_assoc. reflexivity.
Qed.

Lemma generateEncodings_spec (env : Env) (fn : string) (es : list string) :
  forall e g log,
    generateEncodings env fn (e :: es) (g, log)
    = let fs := map (walked fn) (files (pkg g)) in
      ({| buf := buf g +++ requestText env fn fs (e :: es); pkg := set_files (pkg g) fs |},
       log ++ flat_map (fun _ => requestLog fn fs) (e :: es)).
Proof.
  induction es as [| e' es IH]; intros e g log.
  - unfold generateEncodings. cbn [fold_left]. rewrite generate_step. cbv zeta.
    unfold requestText, adapters, render. cbn [map concatAll flat_map fold_right].
    rewrite app_nil_r.
    destruct (existsb flagged _); now rewrite ?append_nil_r.
  - unfold generateEncodings in *. cbn [fold_left] in *.
    rewrite generate_step. cbv zeta. rewrite IH. cbv zeta. cbn [pkg files set_files buf].
    rewrite map_walked_idem. unfold requestText, adapters, render.
    set (fs := map (walked fn) (files (pkg g))).
    cbn [flat_map map concatAll fold_right].
    rewrite <- !app_assoc. f_equal.
    destruct (existsb flagged fs); cbn [map concatAll fold_right];
      rewrite ?append_assoc; reflexivity.
Qed.

(** ** The template and the adapter it spells out *)

Lemma Execute_handlerWrap (h : Handler) :
  Execute handlerWrap h = Adapter.printFunc (Adapter.adapter h).
Proof.
  unfold Adapter.printFunc, Adapter.adapter, Adapter.handlerName, handlerWrap.
  cbn [Execute piece Adapter.fname Adapter.body map concatAll fold_right
       Adapter.printStmt Adapter.printExpr String.concat].
  repeat rewrite append_assoc. reflexivity.
Qed.

(** ** The run up to the generation loops *)

Lemma importLines_ok (env : Env) (es : list string) :
  Forall (fun e => Import env e <> None) es ->
  forall g, importLines env es g
            = inr {| buf := buf g +++ concatAll (map importLine es); pkg := pkg g |}.
Proof.
  induction 1 as [| e es He _ IH]; intros g.
  - simpl. rewrite append_nil_r. now destruct g.
  - cbn [importLines]. destruct (Import env e); [| contradiction].
    rewrite IH. unfold Printf. cbn [buf pkg map concatAll fold_right].
    now rewrite append_assoc.
Qed.

Lemma length_zero_iff (s : string) : (String.length s =? 0)%nat = false <-> s <> "".
Proof. destruct s; simpl; split; congruence. Qed.

Lemma main_reaches (env : Env) (inv : Invocation) (d : string) (p : Package) :
  reaches env inv d p ->
  main env inv
  = finish env inv d
      (generateFuncs env (Split (funcNames inv)) (Split (encodingPkgNames inv))
                     (prepared inv p, [])).
Proof.
  intros (Hf & He & Hl & Hi). unfold main.
  apply length_zero_iff in Hf. apply length_zero_iff in He. rewrite Hf, He. cbn [orb].
  rewrite Hl, importLines_ok by exact Hi. reflexivity.
Qed.

Lemma finish_document env inv d st : document (finish env inv d st) = buf (fst st).
Proof.
  destruct st as [g log]. unfold finish. destruct (format env g log).
  destruct (WriteFile env _ _); reflexivity.
Qed.

(** ** The buffer only grows, by whole adapters *)

Lemma generateEncodings_buf (env : Env) (fn : string) (es : list string) g log :
  buf (fst (generateEncodings env fn es (g, log)))
  = buf g +++ requestText env fn (map (walked fn) (files (pkg g))) es.
Proof.
  destruct es as [| e es].
  - unfold requestText, adapters, render. simpl.
    destruct (existsb flagged _); simpl; now rewrite append_nil_r.
  - now rewrite generateEncodings_spec.
Qed.

Lemma generateEncodings_renders (env : Env) (fn : string) (es : list string) st :
  exists hs, buf (fst (generateEncodings env fn es st)) = buf (fst st) +++ render hs
             /\ Forall (fun h => Func h = fn) hs.
Proof.
  destruct st as [g log]. rewrite generateEncodings_buf. unfold requestText.
  destruct (existsb flagged _).
  - eexists. split; [reflexivity |]. unfold adapters. apply Forall_map.
    now apply Forall_forall.
  - exists []. split; [reflexivity | constructor].
Qed.

Lemma generateFuncs_renders (env : Env) (fns es : list string) :
  forall st, exists hs,
      buf (fst (generateFuncs env fns es st)) = buf (fst st) +++ render hs
      /\ Forall (fun h => In (Func h) fns) hs.
Proof.
  induction fns as [| fn fns IH]; intros st.
  - exists []. simpl. split; [now rewrite append_nil_r | constructor].
  - unfold generateFuncs in *. cbn [fold_left].
    destruct (generateEncodings_renders env fn es st) as (hs & Hhs & Hfn).
    destruct (IH (generateEncodings env fn es st)) as (ks & Hks & Hfns).
    exists (hs ++ ks). split.
    + now rewrite Hks, Hhs, render_app, append_assoc.
    + apply Forall_app. split.
      * eapply Forall_impl; [| exact Hfn]. intros h <-. now left.
      * eapply Forall_impl; [| exact Hfns]. intros h Hin. now right.
Qed.

(** ** Which files hand over a type *)

Lemma flagged_walked fn f :
  flagged (walked fn f)
  = (flagged f || match resolved fn (fileDecls f) with [] => false | _ => true end)%bool.
Proof.
  unfold flagged. rewrite walked_file. unfold walked, fileDecls.
  destruct (file f) as [ast |]; [| reflexivity].
  destruct (resolved fn (funcDecls ast)); simpl;
    [now rewrite orb_false_r | now rewrite orb_true_r].
Qed.

Lemma last_default (A : Type) (l : list A) (d e : A) : l <> [] -> last l d = last l e.
Proof.
  induction l as [| a [| b l] IH]; intros H; [contradiction | reflexivity |].
  change (last (b :: l) d = last (b :: l) e). apply IH. discriminate.
Qed.

Lemma paramfullname_walked fn f :
  paramfullname (walked fn f) = last (resolved fn (fileDecls f)) (paramfullname f).
Proof.
  unfold walked, fileDecls. destruct (file f) as [ast |]; [| reflexivity].
  destruct (resolved fn (funcDecls ast)) as [| t ts] eqn:E; [reflexivity |].
  cbn [paramfullname]. apply last_default. discriminate.
Qed.

Lemma last_app_default (A : Type) (l m : list A) (d : A) :
  last (l ++ m) d = last m (last l d).
Proof.
  destruct m as [| x m].
  - now rewrite app_nil_r.
  - rewrite last_app_cons. apply last_default. discriminate.
Qed.

Lemma fresh_cons f fs : fresh (f :: fs) <-> found f = false /\ fresh fs.
Proof. unfold fresh. split; [intros H; now inversion H | intros [H1 H2]; now constructor]. Qed.

Lemma fresh_not_flagged f : found f = false -> flagged f = false.
Proof. unfold flagged. intros ->. now destruct (file f). Qed.

(** From the fields as [parsePackage] leaves them, a name is found exactly
    when some declaration resolves ... *)
Lemma fresh_found (fn : string) (fs : list File) :
  fresh fs ->
  existsb flagged (map (walked fn) fs)
  = match allResolved fn fs with [] => false | _ => true end.
Proof.
  induction fs as [| f fs IH]; intros H; [reflexivity |].
  apply fresh_cons in H as [Hf Hfs]. cbn [map existsb].
  rewrite flagged_walked, (fresh_not_flagged _ Hf), IH by exact Hfs.
  unfold allResolved. cbn [flat_map orb].
  destruct (resolved fn (fileDecls f)); reflexivity.
Qed.

(** ... and the type handed to [build] is the last one resolved. *)
Lemma fresh_lastFlagged (fn : string) (fs : list File) :
  fresh fs ->
  forall pfn, lastFlagged (map (walked fn) fs) pfn = last (allResolved fn fs) pfn.
Proof.
  unfold lastFlagged.
  induction fs as [| f fs IH]; intros H pfn; [reflexivity |].
  apply fresh_cons in H as [Hf Hfs]. cbn [map fold_left].
  rewrite IH by exact Hfs. unfold allResolved. cbn [flat_map].
  rewrite last_app_default. f_equal.
  rewrite flagged_walked, (fresh_not_flagged _ Hf), paramfullname_walked. cbn [orb].
  destruct (resolved fn (fileDecls f)) as [| t ts]; [reflexivity |].
  apply last_default. discriminate.
Qed.

Lemma resolved_nil (fn : string) (ds : list (string * list Field)) :
  (forall d, In d ds -> fst d = fn -> typeName (snd d) = None) -> resolved fn ds = [].
Proof.
  induction ds as [| d ds IH]; intros H; [reflexivity |].
  unfold resolved in *. cbn [flat_map]. rewrite IH by (intros; apply H; [now right | assumption]).
  destruct (String.eqb (fst d) fn) eqn:E; [| reflexivity].
  apply String.eqb_eq in E. now rewrite (H d (or_introl eq_refl) E).
Qed.

Lemma unresolved_allResolved fn fs : unresolved fn fs -> allResolved fn fs = [].
Proof.
  unfold allResolved. induction fs as [| f fs IH]; intros H; [reflexivity |].
  cbn [flat_map]. rewrite IH, app_nil_r.
  - apply resolved_nil. intros d Hd. apply (H f d); [now left | exact Hd].
  - intros g d Hg. apply H. now right.
Qed.

Lemma unresolved_walked fn fs :
  unresolved fn fs -> map (walked fn) fs = map (fun f => set_funcName f fn) fs.
Proof.
  intros H. apply map_ext_in. intros f Hf. unfold walked.
  rewrite resolved_nil; [now destruct (file f) |].
  intros d Hd. now apply (H f d).
Qed.

Lemma undeclared_unresolved fn fs : undeclared fn fs -> unresolved fn fs.
Proof.
  intros H f d Hf Hd Hn. unfold undeclared in H. rewrite Forall_forall in H.
  specialize (H f Hf). rewrite Forall_forall in H. now destruct (H d Hd).
Qed.

Lemma undeclared_passDiags fn fs : undeclared fn fs -> passDiags fn fs = [].
Proof.
  unfold undeclared, passDiags. induction 1 as [| f fs Hf _ IH]; [reflexivity |].
  cbn [flat_map]. rewrite IH, app_nil_r.
  induction Hf as [| d ds Hd _ IHd]; [reflexivity |].
  cbn [flat_map]. rewrite IHd, app_nil_r. unfold declDiag.
  apply String.eqb_neq in Hd. now rewrite Hd.
Qed.

Lemma fresh_set_funcName fn fs : fresh fs -> fresh (map (fun f => set_funcName f fn) fs).
Proof. unfold fresh. intros H. apply Forall_map. exact H. Qed.

Lemma walked_set_funcName fn fn' f : walked fn (set_funcName f fn') = walked fn f.
Proof. reflexivity. Qed.

Lemma map_walked_set_funcName fn fn' fs :
  map (walked fn) (map (fun f => set_funcName f fn') fs) = map (walked fn) fs.
Proof. rewrite map_map. apply map_ext. intros f. apply walked_set_funcName. Qed.

Lemma passDiags_set_funcName fn fn' fs :
  passDiags fn (map (fun f => set_funcName f fn') fs) = passDiags fn fs.
Proof. unfold passDiags. rewrite flat_map_concat_map, map_map, <- flat_map_concat_map. reflexivity. Qed.

(** A request that finds nothing leaves the generator as it was, but for
    the requested name noted in each file. *)
Lemma unresolved_request (env : Env) (fn : string) (es : list string) g log :
  fresh (files (pkg g)) -> unresolved fn (files (pkg g)) ->
  forall e,
  generateEncodings env fn (e :: es) (g, log)
  = ({| buf := buf g;
        pkg := set_files (pkg g) (map (fun f => set_funcName f fn) (files (pkg g))) |},
     log ++ flat_map (fun _ => passDiags fn (files (pkg g)) ++ [PrintNotFound fn]) (e :: es)).
Proof.
  intros Hfresh Hun e. rewrite generateEncodings_spec. cbv zeta.
  unfold requestText, requestLog.
  rewrite fresh_found, unresolved_allResolved, append_nil_r by assumption.
  rewrite unresolved_walked by assumption.
  now rewrite passDiags_set_funcName.
Qed.

(** ** Requests that find nothing *)

Lemma main_exit_zero (env : Env) (inv : Invocation) (d : string) (p : Package) :
  reaches env inv d p ->
  (forall n src, WriteFile env n src = true) ->
  exitCode (main env inv) = 0.
Proof.
  intros Hr Hw. rewrite (main_reaches Hr).
  destruct (generateFuncs _ _ _ _) as [g log]. unfold finish.
  destruct (format env g log). now rewrite Hw.
Qed.

Lemma flat_map_const (A B : Type) (l : list A) (x : B) :
  flat_map (fun _ => [x]) l = repeat x (length l).
Proof. induction l; simpl; congruence. Qed.

(** C2, amended.  A requested function name that no declaration of the
    package carries, requested while no file holds a [found] flag from an
    earlier request (as for the first name of a run): the buffer gets no
    adapter, [Func not found] is printed once per requested encoding, the
    flags stay down, and a run that reaches the generation loops and whose
    write succeeds exits with code 0. *)
Theorem unmatched_name_skipped (env : Env) (fn : string) (es : list string)
        (g : Generator) (log : list Event) :
  fresh (files (pkg g)) ->
  undeclared fn (files (pkg g)) ->
  (let (g', log') := generateEncodings env fn es (g, log) in
   buf g' = buf g /\
   fresh (files (pkg g')) /\
   log' = log ++ repeat (PrintNotFound fn) (length es))
  /\ (forall inv d p,
        reaches env inv d p ->
        In fn (Split (funcNames inv)) ->
        (forall n src, WriteFile env n src = true) ->
        exitCode (main env inv) = 0).
Proof.
  intros Hfresh Hun. split.
  - destruct es as [| e es].
    + simpl. now rewrite app_nil_r.
    + rewrite unresolved_request by (auto using undeclared_unresolved).
      cbn [buf pkg files set_files]. repeat split.
      * now apply fresh_set_funcName.
      * rewrite undeclared_passDiags by assumption. f_equal.
        apply (flat_map_const (e :: es)).
  - intros inv d p Hr _ Hw. now apply main_exit_zero with (d := d) (p := p).
Qed.

Lemma unmatched_name_skipped_witness :
  let env := Examples.envOf [("jober.go", Examples.joberGo)] (fun s => Some s) in
  let g := Examples.generatorOf [Examples.joberGo] in
  fresh (files (pkg g)) /\ undeclared "Missing" (files (pkg g)) /\
  (let (g', log') :=
     generateEncodings env "Missing" ["encoding/json"; "encoding/xml"] (g, []) in
   buf g' = buf g /\ fresh (files (pkg g')) /\
   log' = [] ++ repeat (PrintNotFound "Missing") 2) /\
  exitCode (main env (Examples.invocation "PutJob,Missing" "encoding/json,encoding/xml")) = 0.
Proof.
  assert (Hf : fresh (files (pkg (Examples.generatorOf [Examples.joberGo]))))
    by (repeat constructor).
  assert (Hu : undeclared "Missing" (files (pkg (Examples.generatorOf [Examples.joberGo]))))
    by (repeat constructor; discriminate).
  pose proof (@unmatched_name_skipped
                (Examples.envOf [("jober.go", Examples.joberGo)] (fun s => Some s))
                "Missing" ["encoding/json"; "encoding/xml"]
                (Examples.generatorOf [Examples.joberGo]) [] Hf Hu) as [H1 H2].
  split; [exact Hf | split; [exact Hu | split; [exact H1 |]]].
  apply (H2 (Examples.invocation "PutJob,Missing" "encoding/json,encoding/xml") "."
            (pkg (Examples.generatorOf [Examples.joberGo]))).
  - repeat split; try discriminate. repeat constructor; discriminate.
  - right. now left.
  - reflexivity.
Defined.

(** C2 as stated fails twice over: with two encodings the absent name is
    reported twice, and after a name that was found the absent name gets
    an adapter of its own, rendered with the earlier parameter type. *)
Lemma unmatched_name_counterexample :
  trace (Examples.run [("jober.go", Examples.joberGo)] "Missing" "encoding/json,encoding/xml")
  = [PrintNotFound "Missing"; PrintNotFound "Missing"]
  /\ document (Examples.run [("jober.go", Examples.joberGo)] "PutJob,Missing" "encoding/json")
     = buf (prepared (Examples.invocation "PutJob,Missing" "encoding/json")
                     (pkg (Examples.generatorOf [Examples.joberGo])))
       +++ render [ {| Func := "PutJob"; EncodingPkg := "json"; T := "job" |};
                    {| Func := "Missing"; EncodingPkg := "json"; T := "job" |} ]
  /\ trace (Examples.run [("jober.go", Examples.joberGo)] "PutJob,Missing" "encoding/json") = [].
Proof. repeat split; vm_compute; reflexivity. Qed.

(** ** Requests whose declarations fail the arity check *)

Lemma in_passDiags (fn : string) (fs : list File) (f : File) (d : string * list Field) :
  In f fs -> In d (fileDecls f) -> In (declDiag fn d) (map (declDiag fn) (fileDecls f)) /\
  forall e, In e (declDiag fn d) -> In e (passDiags fn fs).
Proof.
  intros Hf Hd. split; [now apply in_map |].
  intros e He. unfold passDiags. apply in_flat_map. exists f. split; [exact Hf |].
  apply in_flat_map. exists d. now split.
Qed.

Lemma passDiags_all (P : Event -> Prop) (fn : string) (fs : list File) :
  (forall f d, In f fs -> In d (fileDecls f) -> Forall P (declDiag fn d)) ->
  Forall P (passDiags fn fs).
Proof.
  intros H. apply Forall_forall. intros e He. unfold passDiags in He.
  apply in_flat_map in He as (f & Hf & He). apply in_flat_map in He as (d & Hd & He).
  pose proof (H f d Hf Hd) as HP. rewrite Forall_forall in HP. now apply HP.
Qed.

Lemma arity_unresolved (fn : string) (fs : list File) :
  (forall f d, In f fs -> In d (fileDecls f) -> fst d = fn -> length (snd d) <> 1) ->
  unresolved fn fs.
Proof.
  intros H f d Hf Hd Hn. specialize (H f d Hf Hd Hn).
  destruct d as [nm ps]. simpl in *. now destruct ps as [| q [| r ps]].
Qed.

(** X19.  A requested function whose declarations all have a number of
    parameter groups (entries of [Params.List]) other than one, requested
    while no file holds a [found] flag: the buffer gets no adapter; each
    walk, one per encoding, logs for every declaration of the name the
    arity diagnostic with that number of groups, and nothing else, and is
    followed by [Func not found]; any later request behaves as if this
    one had not been made. *)
Theorem arity_mismatch_skipped (env : Env) (fn : string) (es : list string)
        (g : Generator) (log : list Event) :
  fresh (files (pkg g)) ->
  (forall f d, In f (files (pkg g)) -> In d (fileDecls f) -> fst d = fn ->
               length (snd d) <> 1) ->
  let (g', log') := generateEncodings env fn es (g, log) in
  let walk := passDiags fn (files (pkg g)) in
  buf g' = buf g /\
  log' = log ++ flat_map (fun _ => walk ++ [PrintNotFound fn]) es /\
  (forall f ps, In f (files (pkg g)) -> In (fn, ps) (fileDecls f) ->
                In (LogArity fn (length ps)) walk) /\
  Forall (fun e => exists n, e = LogArity fn n /\ n <> 1) walk /\
  (forall fn' enc w, generate fn' enc (g', w) = generate fn' enc (g, w)).
Proof.
  intros Hfresh Har.
  assert (Hin : forall f ps, In f (files (pkg g)) -> In (fn, ps) (fileDecls f) ->
                             In (LogArity fn (length ps)) (passDiags fn (files (pkg g)))).
  { intros f ps Hf Hd. apply (in_passDiags fn _ _ _ Hf Hd). unfold declDiag. cbn [fst snd].
    rewrite String.eqb_refl.
    pose proof (Har f (fn, ps) Hf Hd eq_refl) as Hn. cbn [snd] in Hn.
    apply Nat.eqb_neq in Hn. rewrite Hn. now left. }
  assert (Hall : Forall (fun e => exists n, e = LogArity fn n /\ n <> 1)
                        (passDiags fn (files (pkg g)))).
  { apply passDiags_all. intros f d Hf Hd. unfold declDiag.
    destruct (String.eqb (fst d) fn) eqn:E; [| constructor].
    apply String.eqb_eq in E. pose proof (Har f d Hf Hd E) as Hn.
    apply Nat.eqb_neq in Hn. rewrite Hn. cbn [negb].
    constructor; [| constructor]. exists (length (snd d)). split; [reflexivity |].
    now apply Nat.eqb_neq. }
  destruct es as [| e es].
  - simpl. rewrite app_nil_r. repeat split; assumption.
  - rewrite unresolved_request by (auto using arity_unresolved).
    cbn [buf pkg files set_files]. repeat split; try assumption.
    intros fn' enc w. rewrite !generate_step. cbv zeta. cbn [buf pkg files set_files].
    now rewrite map_walked_set_funcName.
Qed.

Lemma arity_mismatch_skipped_witness :
  let g := Examples.generatorOf [Examples.joberGo; Examples.importGo] in
  let (g', log') := generateEncodings Examples.plain "Import" ["encoding/json"] (g, []) in
  buf g' = buf g /\
  log' = [LogArity "Import" 4; PrintNotFound "Import"] /\
  arityMessage "Import" 4 = "Import should take only one parameter, found 4 instead" /\
  buf (fst (generate "PutJob" "json" (g', [])))
  = render [ {| Func := "PutJob"; EncodingPkg := "json"; T := "job" |} ].
Proof.
  pose proof (@arity_mismatch_skipped Examples.plain "Import" ["encoding/json"]
                (Examples.generatorOf [Examples.joberGo; Examples.importGo]) []) as H.
  cbv zeta.
  destruct (generateEncodings Examples.plain "Import" ["encoding/json"]
              (Examples.generatorOf [Examples.joberGo; Examples.importGo], []))
    as [g' log'].
  destruct H as (Hb & Hl & _ & _ & Hg).
  - repeat constructor.
  - intros f d Hf Hd Hn. simpl in Hf.
    destruct Hf as [<- | [<- | []]]; simpl in Hd.
    + destruct Hd as [<- | []]. discriminate.
    + destruct Hd as [<- | []]. simpl. discriminate.
  - split; [exact Hb | split; [exact Hl | split]].
    + reflexivity.
    + rewrite Hg. reflexivity.
Defined.

(** C6, on the code.  The arity check lets through what the claim says
    it stops.  [func F(a, b X)] has two parameters: nothing is logged and
    an adapter calling [F(x)] is emitted.  [func G(a, b A, c C)] has three:
    the diagnostic says two.  And [Import], with four parameters,
    requested after [PutJob]: the diagnostic is logged and an adapter for
    [Import] is emitted all the same, with the type of [PutJob]. *)
Theorem arity_check_lets_parameters_through :
  (let out := Examples.run [("pair.go", Examples.pairGo)] "F" "encoding/json" in
   trace out = [] /\
   document out
   = buf (prepared (Examples.invocation "F" "encoding/json")
                   (pkg (Examples.generatorOf [Examples.pairGo])))
     +++ render [ {| Func := "F"; EncodingPkg := "json"; T := "X" |} ])
  /\
  (let out := Examples.run [("triple.go", Examples.tripleGo)] "G" "encoding/json" in
   trace out = [LogArity "G" 2; PrintNotFound "G"] /\
   arityMessage "G" 2 = "G should take only one parameter, found 2 instead")
  /\
  (let out := Examples.run [("jober.go", Examples.joberGo); ("import.go", Examples.importGo)]
                          "PutJob,Import" "encoding/json" in
   trace out = [LogArity "Import" 4] /\
   document out
   = buf (prepared (Examples.invocation "PutJob,Import" "encoding/json")
                   (pkg (Examples.generatorOf [Examples.joberGo; Examples.importGo])))
     +++ render [ {| Func := "PutJob"; EncodingPkg := "json"; T := "job" |};
                  {| Func := "Import"; EncodingPkg := "json"; T := "job" |} ]).
Proof. repeat split; vm_compute; reflexivity. Qed.

(** ** Requests that find a declaration *)

Lemma allResolved_in (fn t : string) (fs : list File) (f : File) (d : string * list Field) :
  In f fs -> In d (fileDecls f) -> fst d = fn -> typeName (snd d) = Some t ->
  In t (allResolved fn fs).
Proof.
  intros Hf Hd Hn Ht. unfold allResolved, resolved.
  apply in_flat_map. exists f. split; [exact Hf |].
  apply in_flat_map. exists d. split; [exact Hd |].
  apply String.eqb_eq in Hn. rewrite Hn, Ht. now left.
Qed.

Lemma allResolved_all (fn t : string) (fs : list File) :
  (forall f d, In f fs -> In d (fileDecls f) -> fst d = fn -> typeName (snd d) = Some t) ->
  Forall (eq t) (allResolved fn fs).
Proof.
  intros H. apply Forall_forall. intros u Hu.
  unfold allResolved, resolved in Hu.
  apply in_flat_map in Hu as (f & Hf & Hu). apply in_flat_map in Hu as (d & Hd & Hu).
  destruct (String.eqb (fst d) fn) eqn:E; [| contradiction].
  apply String.eqb_eq in E. rewrite (H f d Hf Hd E) in Hu. now destruct Hu.
Qed.

Lemma last_all_eq (A : Type) (x d : A) (l : list A) :
  l <> [] -> Forall (eq x) l -> last l d = x.
Proof.
  intros Hne Hall. destruct (exists_last Hne) as (l' & y & ->).
  rewrite last_last. apply Forall_app in Hall as [_ Hy]. now inversion Hy.
Qed.

Lemma passDiags_nil (fn : string) (fs : list File) :
  (forall f d, In f fs -> In d (fileDecls f) -> declDiag fn d = []) ->
  passDiags fn fs = [].
Proof.
  intros H. unfold passDiags.
  induction fs as [| f fs IH]; [reflexivity |].
  cbn [flat_map]. rewrite IH by (intros g d Hg; apply H; now right). rewrite app_nil_r.
  assert (Hf : forall d, In d (fileDecls f) -> declDiag fn d = [])
    by (intros d; apply H; now left).
  induction (fileDecls f) as [| d ds IHd]; [reflexivity |].
  cbn [flat_map]. rewrite IHd by (intros; apply Hf; now right).
  rewrite (Hf d (or_introl eq_refl)). reflexivity.
Qed.

(** A declaration that resolves raises the flag of its file, whatever the
    flags were before. *)
Lemma resolving_found (fn t : string) (fs : list File) (f : File) (d : string * list Field) :
  In f fs -> In d (fileDecls f) -> fst d = fn -> typeName (snd d) = Some t ->
  existsb flagged (map (walked fn) fs) = true.
Proof.
  intros Hf Hd Hn Ht. apply existsb_exists. exists (walked fn f). split.
  - now apply in_map.
  - rewrite flagged_walked.
    assert (Hin : In t (resolved fn (fileDecls f))).
    { unfold resolved. apply in_flat_map. exists d. split; [exact Hd |].
      apply String.eqb_eq in Hn. rewrite Hn, Ht. now left. }
    destruct (resolved fn (fileDecls f)); [contradiction | apply orb_true_r].
Qed.

Lemma append_inj (a u v : string) : a +++ u = a +++ v -> u = v.
Proof. induction a as [| c a IH]; simpl; intros H; [exact H | inversion H; auto]. Qed.

Lemma NoDup_map_inj (A B : Type) (f : A -> B) (l : list A) :
  (forall x y, f x = f y -> x = y) -> NoDup (map f l) <-> NoDup l.
Proof.
  intros Hinj. split; [apply NoDup_map_inv |].
  induction 1 as [| x l Hx _ IH]; simpl; constructor; [| exact IH].
  intros Hin. apply in_map_iff in Hin as (y & Hy & Hin).
  apply Hinj in Hy. now subst.
Qed.

Lemma Execute_handlerWrap_name (h : Handler) :
  exists rest,
    Execute handlerWrap h
    = nl +++ "func " +++ Adapter.handlerName h
      +++ "(w http.ResponseWriter, r *http.Request) {" +++ rest.
Proof.
  unfold handlerWrap, Adapter.handlerName.
  cbn [Execute piece]. eexists. rewrite !append_assoc. reflexivity.
Qed.

(** C4, amended.  A function declared with exactly one parameter of a
    local type, requested with N encodings whose package names are ASCII:
    the buffer gets exactly N adapters, one per encoding in order; the
    text of each opens with [func], then the function name, [Handler] and
    the upper-cased package name, then the parameter list; the names are
    pairwise distinct exactly when the upper-cased package names are.
    From the fields as parsing leaves them, each adapter is rendered with
    the bare type identifier. *)
Theorem one_adapter_per_encoding (env : Env) (fn x X : string) (es : list string)
        (g : Generator) (log : list Event) :
  (exists f, In f (files (pkg g)) /\
             In (fn, [{| Names := [x]; Type_ := Ident X |}]) (fileDecls f)) ->
  Forall (fun e => asciiOnly (importName env e) = true) es ->
  exists t,
    let hs := adapters env fn t es in
    buf (fst (generateEncodings env fn es (g, log))) = buf g +++ render hs /\
    length hs = length es /\
    Forall2 (fun e h =>
               exists rest,
                 Execute handlerWrap h
                 = nl +++ "func " +++ (fn +++ "Handler" +++ ToUpper (importName env e))
                   +++ "(w http.ResponseWriter, r *http.Request) {" +++ rest) es hs /\
    map Adapter.handlerName hs
    = map (fun e => fn +++ "Handler" +++ ToUpper (importName env e)) es /\
    (NoDup (map Adapter.handlerName hs)
     <-> NoDup (map (fun e => ToUpper (importName env e)) es)) /\
    (fresh (files (pkg g)) -> Forall (eq X) (allResolved fn (files (pkg g))) -> t = X).
Proof.
  intros (f & Hf & Hd) _.
  exists (lastFlagged (map (walked fn) (files (pkg g))) ""). cbv zeta.
  assert (Hnames : map Adapter.handlerName
                       (adapters env fn (lastFlagged (map (walked fn) (files (pkg g))) "") es)
                   = map (fun e => fn +++ "Handler" +++ ToUpper (importName env e)) es).
  { unfold adapters. rewrite map_map. reflexivity. }
  assert (Hinj : forall u v, fn +++ "Handler" +++ u = fn +++ "Handler" +++ v -> u = v).
  { intros u v H. apply append_inj in H. now apply append_inj in H. }
  split; [| split; [| split; [| split; [| split]]]].
  - rewrite generateEncodings_buf. unfold requestText.
    now rewrite (@resolving_found fn X (files (pkg g)) f _ Hf Hd eq_refl eq_refl).
  - unfold adapters. apply length_map.
  - unfold adapters. clear Hnames.
    induction es as [| e es IH]; cbn [map]; [constructor | constructor; [| exact IH]].
    apply (Execute_handlerWrap_name
             {| Func := fn; EncodingPkg := importName env e;
                T := lastFlagged (map (walked fn) (files (pkg g))) "" |}).
  - exact Hnames.
  - rewrite Hnames.
    rewrite <- (map_map (fun e => ToUpper (importName env e))
                        (fun u => fn +++ "Handler" +++ u)).
    now apply NoDup_map_inj.
  - intros Hfresh Hall. rewrite fresh_lastFlagged by exact Hfresh.
    apply last_all_eq; [| exact Hall].
    intros Hnil.
    pose proof (@allResolved_in fn X (files (pkg g)) f _ Hf Hd eq_refl eq_refl) as Hin.
    rewrite Hnil in Hin. contradiction.
Qed.

Lemma one_adapter_per_encoding_witness :
  let g := Examples.generatorOf [Examples.joberGo] in
  let es := ["encoding/json"; "encoding/xml"] in
  exists t,
    let hs := adapters Examples.plain "PutJob" t es in
    buf (fst (generateEncodings Examples.plain "PutJob" es (g, []))) = buf g +++ render hs /\
    length hs = 2 /\
    map Adapter.handlerName hs = ["PutJobHandlerJSON"; "PutJobHandlerXML"] /\
    NoDup (map Adapter.handlerName hs) /\
    t = "job".
Proof.
  cbv zeta.
  destruct (@one_adapter_per_encoding Examples.plain "PutJob" "j" "job"
              ["encoding/json"; "encoding/xml"]
              (Examples.generatorOf [Examples.joberGo]) [])
    as (t & Hbuf & Hlen & _ & Hnames & Hdup & Ht).
  - exists (newFile Examples.joberGo). split; now left.
  - repeat constructor.
  - exists t. split; [exact Hbuf | split; [exact Hlen | split; [exact Hnames | split]]].
    + apply Hdup. repeat constructor; simpl; intuition discriminate.
    + apply Ht; repeat constructor.
Defined.

(** C4 as stated fails: two distinct packages whose names differ only in
    case give two adapters of one name, and so do two distinct packages
    of one name. *)
Lemma distinct_names_counterexample :
  let es := ["encoding/json"; "example.com/codec/JSON"] in
  let h1 := {| Func := "PutJob"; EncodingPkg := "json"; T := "job" |} in
  let h2 := {| Func := "PutJob"; EncodingPkg := "JSON"; T := "job" |} in
  NoDup es /\ NoDup (map (importName Examples.plain) es) /\
  document (Examples.run [("jober.go", Examples.joberGo)] "PutJob"
                         "encoding/json,example.com/codec/JSON")
  = buf (prepared (Examples.invocation "PutJob" "encoding/json,example.com/codec/JSON")
                  (pkg (Examples.generatorOf [Examples.joberGo])))
    +++ render [h1; h2] /\
  Adapter.handlerName h1 = "PutJobHandlerJSON" /\
  Adapter.handlerName h2 = "PutJobHandlerJSON" /\
  map Adapter.handlerName
      (adapters Examples.plain "PutJob" "job" ["encoding/json"; "example.com/fast/json"])
  = ["PutJobHandlerJSON"; "PutJobHandlerJSON"].
Proof.
  cbv zeta. split; [| split; [| repeat split; vm_compute; reflexivity]].
  - repeat constructor; simpl; intuition discriminate.
  - repeat constructor; simpl; intuition discriminate.
Qed.

(** C10.  The arity check counts the entries of [Params.List]: when the
    declarations named [fn] are a function with two or more parameter
    names in one group of type [X], a request for [fn] logs nothing, the
    walk leaves the file of the declaration with its flag up and [X] as
    the resolved type, and the buffer gets one adapter, whose call passes
    the single variable [x]; from the fields as parsing leaves them the
    adapter is rendered with [X]. *)
Theorem grouped_parameters_pass_arity_check
        (fn a b X enc : string) (more : list string) (g : Generator) (log : list Event) :
  let decl := (fn, [{| Names := a :: b :: more; Type_ := Ident X |}]) in
  (exists f, In f (files (pkg g)) /\ In decl (fileDecls f)) ->
  (forall f d, In f (files (pkg g)) -> In d (fileDecls f) -> fst d = fn -> d = decl) ->
  (forall f, In f (files (pkg g)) -> In decl (fileDecls f) ->
             found (walked fn f) = true /\ paramfullname (walked fn f) = X)
  /\ exists t,
      let h := {| Func := fn; EncodingPkg := enc; T := t |} in
      generate fn enc (g, log)
      = ({| buf := buf g +++ Adapter.printFunc (Adapter.adapter h);
            pkg := set_files (pkg g) (map (walked fn) (files (pkg g))) |}, log)
      /\ In (Adapter.DefineCall "resp" "s" fn ["x"]) (Adapter.body (Adapter.adapter h))
      /\ (fresh (files (pkg g)) -> t = X).
Proof.
  intros decl (f & Hf & Hd) Hall.
  assert (Hres : forall f d, In f (files (pkg g)) -> In d (fileDecls f) -> fst d = fn ->
                             typeName (snd d) = Some X).
  { intros f' d Hf' Hd' Hn. now rewrite (Hall f' d Hf' Hd' Hn). }
  assert (Hne : allResolved fn (files (pkg g)) <> []).
  { intros Hnil.
    pose proof (@allResolved_in fn X (files (pkg g)) f decl Hf Hd eq_refl eq_refl) as Hin.
    rewrite Hnil in Hin. contradiction. }
  split.
  - intros f' Hf' Hd'.
    assert (Hin : In X (resolved fn (fileDecls f'))).
    { unfold resolved. apply in_flat_map. exists decl. split; [exact Hd' |].
      cbn [fst snd decl]. rewrite String.eqb_refl. now left. }
    assert (Hall' : Forall (eq X) (resolved fn (fileDecls f'))).
    { apply Forall_forall. intros u Hu. unfold resolved in Hu.
      apply in_flat_map in Hu as (d & Hd2 & Hu).
      destruct (String.eqb (fst d) fn) eqn:E; [| contradiction].
      apply String.eqb_eq in E. rewrite (Hres f' d Hf' Hd2 E) in Hu. now destruct Hu. }
    rewrite paramfullname_walked. split.
    + unfold walked, fileDecls in *. destruct (file f'); [| contradiction].
      destruct (resolved fn (funcDecls n)); [contradiction | reflexivity].
    + apply last_all_eq; [| exact Hall']. intros Hnil. rewrite Hnil in Hin. contradiction.
  - exists (lastFlagged (map (walked fn) (files (pkg g))) ""). cbv zeta.
    split; [| split; [simpl; tauto |]].
    + rewrite generate_step. cbv zeta. unfold requestLog.
      rewrite (@resolving_found fn X (files (pkg g)) f decl Hf Hd eq_refl eq_refl).
      rewrite passDiags_walked, passDiags_nil, !app_nil_r.
      * now rewrite Execute_handlerWrap.
      * intros f' d Hf' Hd'. unfold declDiag.
        destruct (String.eqb (fst d) fn) eqn:E; [| reflexivity].
        apply String.eqb_eq in E. now rewrite (Hall f' d Hf' Hd' E).
    + intros Hfresh. rewrite fresh_lastFlagged by exact Hfresh.
      apply last_all_eq; [exact Hne | now apply allResolved_all].
Qed.

Lemma grouped_parameters_pass_arity_check_witness :
  let g := Examples.generatorOf [Examples.pairGo] in
  (found (walked "F" (newFile Examples.pairGo)) = true /\
   paramfullname (walked "F" (newFile Examples.pairGo)) = "X")
  /\ exists t,
      let h := {| Func := "F"; EncodingPkg := "json"; T := t |} in
      generate "F" "json" (g, [])
      = ({| buf := buf g +++ Adapter.printFunc (Adapter.adapter h);
            pkg := set_files (pkg g) (map (walked "F") (files (pkg g))) |}, [])
      /\ In (Adapter.DefineCall "resp" "s" "F" ["x"]) (Adapter.body (Adapter.adapter h))
      /\ t = "X".
Proof.
  destruct (@grouped_parameters_pass_arity_check "F" "a" "b" "X" "json" []
              (Examples.generatorOf [Examples.pairGo]) [])
    as (Hfile & t & Hgen & Hcall & Ht).
  - exists (newFile Examples.pairGo). split; now left.
  - intros f d Hf Hd _. simpl in Hf. destruct Hf as [<- | []].
    simpl in Hd. now destruct Hd as [<- | []].
  - split.
    + apply Hfile; now left.
    + exists t. split; [exact Hgen | split; [exact Hcall |]].
      apply Ht. repeat constructor.
Defined.

(** ** Stale flags *)

(** From the fields as parsing leaves them, the type handed to [build] is
    the last one resolved, over all files in enumeration order: a later
    file overwrites an earlier one. *)
Lemma fresh_last_match_wins (fn enc : string) (g : Generator) (log : list Event) :
  fresh (files (pkg g)) ->
  allResolved fn (files (pkg g)) <> [] ->
  buf (fst (generate fn enc (g, log)))
  = buf g +++ Execute handlerWrap
                {| Func := fn; EncodingPkg := enc;
                   T := last (allResolved fn (files (pkg g))) "" |}.
Proof.
  intros Hfresh Hne. rewrite generate_step. cbv zeta. cbn [fst buf].
  rewrite fresh_found, fresh_lastFlagged by exact Hfresh.
  destruct (allResolved fn (files (pkg g))); [contradiction | reflexivity].
Qed.

(** C5, on the code.  [Put] is declared in the first two files and [Get]
    in the third.  Requested first, [Put] resolves to the type of the
    second file; requested after [Get], it is rendered with the type of
    [Get], left in the third file with its [found] flag. *)
Theorem stale_flag_overrides_last_match :
  let g := Examples.generatorOf [Examples.methodAGo; Examples.methodBGo; Examples.otherGo] in
  buf (fst (generate "Put" "json" (g, [])))
  = render [ {| Func := "Put"; EncodingPkg := "json"; T := "X2" |} ]
  /\ buf (fst (generate "Put" "json" (generate "Get" "json" (g, []))))
     = render [ {| Func := "Get"; EncodingPkg := "json"; T := "z.Y" |};
                {| Func := "Put"; EncodingPkg := "json"; T := "z.Y" |} ].
Proof. split; vm_compute; reflexivity. Qed.

(** ** The document of a run *)

Lemma header_buf (inv : Invocation) (p : Package) :
  buf (header inv p) = banner inv +++ nl +++ ("package " +++ name p +++ nl) +++ nl.
Proof.
  unfold header, Printf. cbn [buf]. rewrite !append_assoc. reflexivity.
Qed.

Lemma main_document (env : Env) (inv : Invocation) (d : string) (p : Package) :
  reaches env inv d p ->
  exists hs,
    document (main env inv)
    = banner inv +++ nl +++ ("package " +++ name p +++ nl) +++ nl
      +++ concatAll (map importLine (Split (encodingPkgNames inv)))
      +++ render hs
    /\ Forall (fun h => In (Func h) (Split (funcNames inv))) hs.
Proof.
  intros Hr. rewrite (main_reaches Hr), finish_document.
  destruct (generateFuncs_renders env (Split (funcNames inv)) (Split (encodingPkgNames inv))
                                  (prepared inv p, [])) as (hs & Hhs & Hin).
  exists hs. split; [| exact Hin].
  rewrite Hhs. cbn [fst prepared buf]. rewrite header_buf, !append_assoc. reflexivity.
Qed.

(** C3, amended.  In a run that reaches the generation loops the document
    is the banner, the package clause, one import line per requested
    encoding package in the order of the request, with nothing removed
    when a package is requested more than once, and then the adapters. *)
Theorem one_import_line_per_request (env : Env) (inv : Invocation) (d : string) (p : Package) :
  reaches env inv d p ->
  let lines := map importLine (Split (encodingPkgNames inv)) in
  length lines = length (Split (encodingPkgNames inv)) /\
  exists hs,
    document (main env inv)
    = banner inv +++ nl +++ ("package " +++ name p +++ nl) +++ nl
      +++ concatAll lines +++ render hs.
Proof.
  intros Hr lines. split; [apply length_map |].
  destruct (main_document Hr) as (hs & Hdoc & _). now exists hs.
Qed.

Lemma one_import_line_per_request_witness :
  let env := Examples.envOf [("jober.go", Examples.joberGo)] (fun s => Some s) in
  let inv := Examples.invocation "PutJob" "encoding/json,encoding/xml" in
  let lines := map importLine ["encoding/json"; "encoding/xml"] in
  length lines = 2 /\
  exists hs,
    document (main env inv)
    = banner inv +++ nl +++ ("package " +++ "jober" +++ nl) +++ nl
      +++ concatAll lines +++ render hs.
Proof.
  apply (@one_import_line_per_request
           (Examples.envOf [("jober.go", Examples.joberGo)] (fun s => Some s))
           (Examples.invocation "PutJob" "encoding/json,encoding/xml") "."
           (pkg (Examples.generatorOf [Examples.joberGo]))).
  repeat split; try discriminate. repeat constructor; discriminate.
Defined.

(** C3 as stated fails: a package requested twice gets two import lines. *)
Lemma duplicate_import_counterexample :
  let inv := Examples.invocation "PutJob" "encoding/json,encoding/json" in
  let h := {| Func := "PutJob"; EncodingPkg := "json"; T := "job" |} in
  document (main (Examples.envOf [("jober.go", Examples.joberGo)] (fun s => Some s)) inv)
  = banner inv +++ nl +++ ("package jober" +++ nl) +++ nl
    +++ importLine "encoding/json" +++ importLine "encoding/json"
    +++ render [h; h].
Proof. vm_compute. reflexivity. Qed.

(** ** The formatter *)

Lemma format_fallback (env : Env) (g : Generator) (log : list Event) :
  Source env (buf g) = None -> format env g log = (buf g, log ++ [LogFormatWarning]).
Proof. unfold format. now intros ->. Qed.

(** C8.  In a run that reaches the generation loops, when [format.Source]
    rejects the buffer the warning is logged, the bytes handed to the
    writer are the buffer as it is (the header, the import lines and every
    adapter as rendered), and the exit code is decided by the write
    alone: 0 when it succeeds. *)
Theorem format_failure_not_fatal (env : Env) (inv : Invocation) (d : string) (p : Package) :
  reaches env inv d p ->
  Source env (document (main env inv)) = None ->
  let doc := document (main env inv) in
  let wrote := WriteFile env (outputName env inv d) doc in
  exitCode (main env inv) = (if wrote then 0 else 1) /\
  written (main env inv) = (if wrote then Some (outputName env inv d, doc) else None) /\
  In LogFormatWarning (trace (main env inv)) /\
  (exists hs,
      doc = banner inv +++ nl +++ ("package " +++ name p +++ nl) +++ nl
            +++ concatAll (map importLine (Split (encodingPkgNames inv)))
            +++ render hs).
Proof.
  intros Hr Hsrc doc wrote. subst doc wrote.
  destruct (main_document Hr) as (hs & Hdoc & _).
  rewrite (main_reaches Hr) in *. rewrite finish_document in *.
  destruct (generateFuncs _ _ _ _) as [g log]. cbn [fst] in *.
  unfold finish. rewrite (format_fallback env g log Hsrc).
  destruct (WriteFile env (outputName env inv d) (buf g));
    cbn [exitCode written trace document]; repeat split;
    try (now exists hs); rewrite ?in_app_iff; simpl; tauto.
Qed.

Lemma format_failure_not_fatal_witness :
  let env := Examples.envOf [("jober.go", Examples.joberGo)] (fun _ => None) in
  let inv := Examples.invocation "PutJob" "encoding/json" in
  let doc := document (main env inv) in
  exitCode (main env inv) = 0 /\
  written (main env inv) = Some ("./generated_handlers.go", doc) /\
  In LogFormatWarning (trace (main env inv)) /\
  (exists hs,
      doc = banner inv +++ nl +++ ("package " +++ "jober" +++ nl) +++ nl
            +++ concatAll (map importLine ["encoding/json"])
            +++ render hs).
Proof.
  apply (@format_failure_not_fatal
           (Examples.envOf [("jober.go", Examples.joberGo)] (fun _ => None))
           (Examples.invocation "PutJob" "encoding/json") "."
           (pkg (Examples.generatorOf [Examples.joberGo]))).
  - repeat split; try discriminate. repeat constructor; discriminate.
  - reflexivity.
Defined.

(** ** Two runs *)







(** ** What an adapter does *)

(** C7.  Every adapter is the program [Adapter.adapter] printed; when the
    decoder fails on the zero value of the parameter type, it writes
    status 400 and does nothing else: the function is not called. *)
Theorem decode_failure_bad_request (rt : Adapter.Runtime) (h : Handler) :
  Adapter.Decode rt (EncodingPkg h) (Adapter.VZero (T h)) = None ->
  Execute handlerWrap h = Adapter.printFunc (Adapter.adapter h) /\
  Adapter.serve rt h = [Adapter.HeaderWritten (Adapter.VInt 400)].
Proof.
  intros Hdec. split; [apply Execute_handlerWrap |].
  unfold Adapter.serve. simpl. now rewrite Hdec.
Qed.

Lemma decode_failure_bad_request_witness :
  let rt := {| Adapter.Decode := fun _ _ => None;
               Adapter.Call := fun _ _ => (Adapter.VStr "created", Adapter.VInt 201) |} in
  let h := {| Func := "PutJob"; EncodingPkg := "json"; T := "job" |} in
  Execute handlerWrap h = Adapter.printFunc (Adapter.adapter h) /\
  Adapter.serve rt h = [Adapter.HeaderWritten (Adapter.VInt 400)].
Proof.
  apply (@decode_failure_bad_request
           {| Adapter.Decode := fun _ _ => None;
              Adapter.Call := fun _ _ => (Adapter.VStr "created", Adapter.VInt 201) |}
           {| Func := "PutJob"; EncodingPkg := "json"; T := "job" |}).
  reflexivity.
Defined.

(** After a successful decode the adapter calls the function once, writes
    its second result as the status and encodes its first result. *)
Lemma serve_decoded (rt : Adapter.Runtime) (h : Handler) (v : Adapter.Value) :
  Adapter.Decode rt (EncodingPkg h) (Adapter.VZero (T h)) = Some v ->
  Adapter.serve rt h
  = [ Adapter.Invoked (Func h) [v];
      Adapter.HeaderWritten (snd (Adapter.Call rt (Func h) [v]));
      Adapter.Encoded (EncodingPkg h) (fst (Adapter.Call rt (Func h) [v])) ].
Proof.
  intros Hdec. unfold Adapter.serve. simpl. rewrite Hdec. simpl.
  destruct (Adapter.Call rt (Func h) [v]) as [a b]. reflexivity.
Qed.

(** C1, on the code.  [PutJob] returns the status first and the response
    second, as the package documentation has it; the adapter generated for
    it binds [resp, s := PutJob(x)], so the response is what reaches
    [WriteHeader] and the status is what gets encoded. *)
Theorem adapter_swaps_status_and_response :
  let h := {| Func := "PutJob"; EncodingPkg := "json"; T := "job" |} in
  let rt := {| Adapter.Decode := fun _ _ => Some (Adapter.VStr "a job");
               Adapter.Call := fun _ _ => (Adapter.VInt 201, Adapter.VStr "created") |} in
  Execute handlerWrap h = Adapter.printFunc (Adapter.adapter h) /\
  In (Adapter.DefineCall "resp" "s" "PutJob" ["x"]) (Adapter.body (Adapter.adapter h)) /\
  Adapter.serve rt h
  = [ Adapter.Invoked "PutJob" [Adapter.VStr "a job"];
      Adapter.HeaderWritten (Adapter.VStr "created");
      Adapter.Encoded "json" (Adapter.VInt 201) ].
Proof.
  cbv zeta. split; [apply Execute_handlerWrap | split; [simpl; tauto | reflexivity]].
Qed.


(** * Further properties of the generator *)

(** ** One request, from the fields as parsing leaves them *)

(** X1.  From the fields as parsing leaves them, one request is decided by
    the declarations alone: when none of the name resolves, the buffer is
    untouched and the walk's diagnostics are followed by [Func not found];
    otherwise one adapter is appended, rendered with the last type
    resolved over the files in order, after the same diagnostics. *)
Theorem generate_from_fresh (fn enc : string) (g : Generator) (log : list Event) :
  fresh (files (pkg g)) ->
  generate fn enc (g, log)
  = ({| buf := buf g +++ match allResolved fn (files (pkg g)) with
                         | [] => ""
                         | _ => Execute handlerWrap
                                  {| Func := fn; EncodingPkg := enc;
                                     T := last (allResolved fn (files (pkg g))) "" |}
                         end;
        pkg := set_files (pkg g) (map (walked fn) (files (pkg g))) |},
     log ++ passDiags fn (files (pkg g))
         ++ match allResolved fn (files (pkg g)) with
            | [] => [PrintNotFound fn]
            | _ => []
            end).
Proof.
  intros Hfresh. rewrite generate_step. cbv zeta. unfold requestLog.
  rewrite fresh_found, fresh_lastFlagged, passDiags_walked by exact Hfresh.
  destruct (allResolved fn (files (pkg g))); reflexivity.
Qed.

Lemma generate_from_fresh_witness :
  let g := Examples.generatorOf [Examples.joberGo; Examples.importGo] in
  fst (generate "PutJob" "json" (g, []))
  = {| buf := render [ {| Func := "PutJob"; EncodingPkg := "json"; T := "job" |} ];
       pkg := set_files (pkg g) (map (walked "PutJob") (files (pkg g))) |}
  /\ snd (generate "Import" "json" (g, [])) = [LogArity "Import" 4; PrintNotFound "Import"].
Proof.
  assert (Hf : fresh (files (pkg (Examples.generatorOf
                                    [Examples.joberGo; Examples.importGo]))))
    by (repeat constructor).
  split.
  - rewrite (@generate_from_fresh "PutJob" "json"
               (Examples.generatorOf [Examples.joberGo; Examples.importGo]) [] Hf).
    reflexivity.
  - rewrite (@generate_from_fresh "Import" "json"
               (Examples.generatorOf [Examples.joberGo; Examples.importGo]) [] Hf).
    reflexivity.
Defined.

(** X2.  A function whose single parameter has a type that is neither an
    identifier nor a qualified identifier (a pointer, a slice, a map, ...),
    requested from the fields as parsing leaves them: every diagnostic of
    the walk is the type-shape one, [Func not found] follows, and the
    buffer is untouched. *)
Theorem unsupported_type_skipped (fn enc : string) (names : list string) (v : Expr)
        (g : Generator) (log : list Event) :
  let decl := (fn, [{| Names := names; Type_ := v |}]) in
  supported v = false ->
  fresh (files (pkg g)) ->
  (exists f, In f (files (pkg g)) /\ In decl (fileDecls f)) ->
  (forall f d, In f (files (pkg g)) -> In d (fileDecls f) -> fst d = fn -> d = decl) ->
  exists diags,
    generate fn enc (g, log)
    = ({| buf := buf g; pkg := set_files (pkg g) (map (walked fn) (files (pkg g))) |},
       log ++ diags ++ [PrintNotFound fn])
    /\ In (LogTypeShape v) diags
    /\ Forall (eq (LogTypeShape v)) diags.
Proof.
  intros decl Hv Hfresh (f & Hf & Hd) Hall.
  assert (Hdiag : declDiag fn decl = [LogTypeShape v]).
  { unfold declDiag, decl. cbn [fst snd length nth Type_]. rewrite String.eqb_refl.
    cbn [Nat.eqb negb]. now destruct v. }
  assert (Hun : unresolved fn (files (pkg g))).
  { intros f' d Hf' Hd' Hn. rewrite (Hall f' d Hf' Hd' Hn). unfold decl. cbn [snd typeName Type_].
    now destruct v. }
  exists (passDiags fn (files (pkg g))). split; [| split].
  - rewrite generate_step. cbv zeta. unfold requestLog.
    rewrite fresh_found, unresolved_allResolved, passDiags_walked, append_nil_r by assumption.
    reflexivity.
  - apply (in_passDiags fn _ _ _ Hf Hd). rewrite Hdiag. now left.
  - apply passDiags_all. intros f' d Hf' Hd'.
    destruct (String.eqb (fst d) fn) eqn:E.
    + apply String.eqb_eq in E. rewrite (Hall f' d Hf' Hd' E), Hdiag. now constructor.
    + unfold declDiag. rewrite E. constructor.
Qed.

Lemma unsupported_type_skipped_witness :
  let g := Examples.generatorOf [Examples.joberGo; Examples.pointerGo] in
  exists diags,
    generate "Store" "json" (g, [])
    = ({| buf := buf g; pkg := set_files (pkg g) (map (walked "Store") (files (pkg g))) |},
       [] ++ diags ++ [PrintNotFound "Store"])
    /\ In (LogTypeShape (StarExpr (Ident "job"))) diags
    /\ Forall (eq (LogTypeShape (StarExpr (Ident "job")))) diags.
Proof.
  apply (@unsupported_type_skipped "Store" "json" ["j"] (StarExpr (Ident "job"))
           (Examples.generatorOf [Examples.joberGo; Examples.pointerGo]) []).
  - reflexivity.
  - repeat constructor.
  - exists (newFile Examples.pointerGo). split; [right; now left | now left].
  - intros f d Hf Hd Hn. simpl in Hf. destruct Hf as [<- | [<- | []]]; simpl in Hd.
    + destruct Hd as [<- | []]. discriminate.
    + now destruct Hd as [<- | []].
Defined.

(** X3.  A function whose single parameter has an imported type
    [alias.Sel], requested from the fields as parsing leaves them with any
    list of encodings: each adapter is rendered with [alias.Sel], so its
    first statement is [x := alias.Sel{}]. *)
Theorem qualified_type_rendered (env : Env) (fn x alias Sel : string) (es : list string)
        (g : Generator) (log : list Event) :
  let decl := (fn, [{| Names := [x]; Type_ := SelectorExpr alias Sel |}]) in
  let hs := adapters env fn (alias +++ "." +++ Sel) es in
  fresh (files (pkg g)) ->
  (exists f, In f (files (pkg g)) /\ In decl (fileDecls f)) ->
  (forall f d, In f (files (pkg g)) -> In d (fileDecls f) -> fst d = fn -> d = decl) ->
  buf (fst (generateEncodings env fn es (g, log))) = buf g +++ render hs
  /\ Forall (fun h => hd_error (Adapter.body (Adapter.adapter h))
                      = Some (Adapter.DefineZero "x" (alias +++ "." +++ Sel))) hs.
Proof.
  intros decl hs Hfresh (f & Hf & Hd) Hall. split.
  - rewrite generateEncodings_buf. unfold requestText.
    rewrite (@resolving_found fn (alias +++ "." +++ Sel) (files (pkg g)) f decl Hf Hd
                              eq_refl eq_refl).
    rewrite fresh_lastFlagged by exact Hfresh.
    rewrite last_all_eq with (x := alias +++ "." +++ Sel); [reflexivity | |].
    + intros Hnil.
      pose proof (@allResolved_in fn (alias +++ "." +++ Sel) (files (pkg g)) f decl
                                  Hf Hd eq_refl eq_refl) as Hin.
      rewrite Hnil in Hin. contradiction.
    + apply allResolved_all. intros f' d Hf' Hd' Hn. now rewrite (Hall f' d Hf' Hd' Hn).
  - unfold hs, adapters. apply Forall_map. apply Forall_forall. intros e _. reflexivity.
Qed.

Lemma qualified_type_rendered_witness :
  let g := Examples.generatorOf [Examples.joberGo; Examples.otherGo] in
  let hs := adapters Examples.plain "Get" "z.Y" ["encoding/json"; "encoding/xml"] in
  buf (fst (generateEncodings Examples.plain "Get" ["encoding/json"; "encoding/xml"] (g, [])))
  = buf g +++ render hs
  /\ Forall (fun h => hd_error (Adapter.body (Adapter.adapter h))
                      = Some (Adapter.DefineZero "x" "z.Y")) hs.
Proof.
  apply (@qualified_type_rendered Examples.plain "Get" "y" "z" "Y"
           ["encoding/json"; "encoding/xml"]
           (Examples.generatorOf [Examples.joberGo; Examples.otherGo]) []).
  - repeat constructor.
  - exists (newFile Examples.otherGo). split; [right; now left | now left].
  - intros f d Hf Hd Hn. simpl in Hf. destruct Hf as [<- | [<- | []]]; simpl in Hd.
    + destruct Hd as [<- | []]. discriminate.
    + now destruct Hd as [<- | []].
Defined.

(** ** Flags that stay up *)

Lemma flagged_stays (fn : string) (fs : list File) :
  existsb flagged fs = true -> existsb flagged (map (walked fn) fs) = true.
Proof.
  intros H. apply existsb_exists in H as (f & Hf & Hfl).
  apply existsb_exists. exists (walked fn f). split; [now apply in_map |].
  rewrite flagged_walked, Hfl. reflexivity.
Qed.

(** X4.  Once some file holds a [found] flag, every later request gets an
    adapter, whatever name it asks for, declared or not: [Func not found]
    is never printed again, and the flag is still up afterwards. *)
Theorem found_flag_sticks (fn enc : string) (g : Generator) (log : list Event) :
  existsb flagged (files (pkg g)) = true ->
  exists t,
    generate fn enc (g, log)
    = ({| buf := buf g +++ Execute handlerWrap {| Func := fn; EncodingPkg := enc; T := t |};
          pkg := set_files (pkg g) (map (walked fn) (files (pkg g))) |},
       log ++ passDiags fn (files (pkg g)))
    /\ existsb flagged (map (walked fn) (files (pkg g))) = true.
Proof.
  intros H. apply (flagged_stays fn) in H.
  exists (lastFlagged (map (walked fn) (files (pkg g))) ""). split; [| exact H].
  rewrite generate_step. cbv zeta. unfold requestLog.
  now rewrite H, passDiags_walked, app_nil_r.
Qed.

Lemma found_flag_sticks_witness :
  let g := fst (generate "PutJob" "json" (Examples.generatorOf [Examples.joberGo], [])) in
  exists t,
    generate "Missing" "xml" (g, [])
    = ({| buf := buf g +++ Execute handlerWrap
                            {| Func := "Missing"; EncodingPkg := "xml"; T := t |};
          pkg := set_files (pkg g) (map (walked "Missing") (files (pkg g))) |},
       [] ++ passDiags "Missing" (files (pkg g)))
    /\ existsb flagged (map (walked "Missing") (files (pkg g))) = true.
Proof.
  apply (@found_flag_sticks "Missing" "xml"
           (fst (generate "PutJob" "json" (Examples.generatorOf [Examples.joberGo], []))) []).
  reflexivity.
Defined.

(** X5.  Nothing remembers what was already generated: the same request
    made twice in a row appends the same text twice and logs the same
    events twice, leaving the files as the first request left them. *)
Theorem repeated_request_repeats (fn enc : string) (g : Generator) (log : list Event) :
  let st1 := generate fn enc (g, log) in
  let st2 := generate fn enc st1 in
  exists text events,
    buf (fst st1) = buf g +++ text /\
    buf (fst st2) = buf g +++ text +++ text /\
    snd st1 = log ++ events /\
    snd st2 = log ++ events ++ events /\
    files (pkg (fst st2)) = files (pkg (fst st1)).
Proof.
  cbv zeta. rewrite (generate_step fn enc g log). cbv zeta. rewrite generate_step. cbv zeta.
  cbn [fst snd buf pkg files set_files]. rewrite map_walked_idem.
  eexists. eexists. repeat split.
  - now rewrite append_assoc.
  - now rewrite <- app_assoc.
Qed.

(** ** What the loops keep and what they add *)

Lemma generate_keeps (fn enc : string) (g : Generator) (log : list Event) :
  let g' := fst (generate fn enc (g, log)) in
  map file (files (pkg g')) = map file (files (pkg g)) /\
  name (pkg g') = name (pkg g) /\ dir (pkg g') = dir (pkg g).
Proof.
  rewrite generate_step. cbv zeta. cbn [fst pkg files set_files name dir].
  repeat split. rewrite map_map. apply map_ext. intros f. apply walked_file.
Qed.

Lemma fold_left_keeps (A B : Type) (R : A -> A -> Prop) (step : A -> B -> A) (l : list B) :
  (forall a, R a a) -> (forall a b c, R a b -> R b c -> R a c) ->
  (forall a b, R a (step a b)) ->
  forall a, R a (fold_left step l a).
Proof.
  intros Hrefl Htrans Hstep. induction l as [| b l IH]; intros a; simpl.
  - apply Hrefl.
  - eapply Htrans; [apply Hstep | apply IH].
Qed.

(** X6.  The generation loops change the per-request fields only: the
    files keep their number, their order and their syntax trees, and the
    package keeps its name and its directory. *)
Theorem generation_keeps_package (env : Env) (fns es : list string)
        (st : Generator * list Event) :
  let g := fst st in
  let g' := fst (generateFuncs env fns es st) in
  map file (files (pkg g')) = map file (files (pkg g)) /\
  name (pkg g') = name (pkg g) /\ dir (pkg g') = dir (pkg g).
Proof.
  cbv zeta. unfold generateFuncs.
  apply (@fold_left_keeps _ _
           (fun a b : Generator * list Event =>
              map file (files (pkg (fst b))) = map file (files (pkg (fst a))) /\
              name (pkg (fst b)) = name (pkg (fst a)) /\
              dir (pkg (fst b)) = dir (pkg (fst a)))).
  - now intros a.
  - intros a b c (H1 & H2 & H3) (H4 & H5 & H6). repeat split; congruence.
  - intros a fn. unfold generateEncodings.
    apply (@fold_left_keeps _ _
             (fun a b : Generator * list Event =>
                map file (files (pkg (fst b))) = map file (files (pkg (fst a))) /\
                name (pkg (fst b)) = name (pkg (fst a)) /\
                dir (pkg (fst b)) = dir (pkg (fst a)))).
    + now intros a0.
    + intros a0 b c (H1 & H2 & H3) (H4 & H5 & H6). repeat split; congruence.
    + intros [g log] e. apply generate_keeps.
Qed.

Lemma generateEncodings_adds (env : Env) (fn : string) (es : list string)
      (st : Generator * list Event) :
  exists hs,
    buf (fst (generateEncodings env fn es st)) = buf (fst st) +++ render hs /\
    length hs <= length es /\
    Forall (fun h => Func h = fn /\ In (EncodingPkg h) (map (importName env) es)) hs.
Proof.
  destruct st as [g log]. rewrite generateEncodings_buf. unfold requestText.
  destruct (existsb flagged _).
  - eexists. split; [reflexivity |]. unfold adapters. rewrite length_map. split; [apply le_n |].
    apply Forall_map. apply Forall_forall. intros e He. cbn [Func EncodingPkg].
    split; [reflexivity | now apply in_map].
  - exists []. split; [reflexivity |]. split; [apply Nat.le_0_l | constructor].
Qed.

(** X7.  The generation loops never touch what the buffer already holds:
    they append whole adapters, at most one per pair of a requested name
    and a requested encoding, each for one of the requested names and
    under the package name of one of the requested encodings. *)
Theorem generation_appends_adapters (env : Env) (fns es : list string) :
  forall st, exists hs,
      buf (fst (generateFuncs env fns es st)) = buf (fst st) +++ render hs /\
      length hs <= length fns * length es /\
      Forall (fun h => In (Func h) fns /\ In (EncodingPkg h) (map (importName env) es)) hs.
Proof.
  induction fns as [| fn fns IH]; intros st.
  - exists []. simpl. split; [now rewrite append_nil_r | split; [apply le_n | constructor]].
  - unfold generateFuncs in *. cbn [fold_left].
    destruct (generateEncodings_adds env fn es st) as (hs & Hhs & Hlen & Hall).
    destruct (IH (generateEncodings env fn es st)) as (ks & Hks & Hklen & Hkall).
    exists (hs ++ ks). split; [| split].
    + now rewrite Hks, Hhs, render_app, append_assoc.
    + rewrite length_app. cbn [length Nat.mul]. now apply Nat.add_le_mono.
    + apply Forall_app. split.
      * eapply Forall_impl; [| exact Hall]. intros h [<- He]. split; [now left | exact He].
      * eapply Forall_impl; [| exact Hkall]. intros h [Hf He]. split; [now right | exact He].
Qed.

(** ** How a run ends *)

Lemma importLines_fail (env : Env) (pre : list string) (bad : string) (post : list string) :
  Forall (fun e => Import env e <> None) pre ->
  Import env bad = None ->
  forall g, importLines env (pre ++ bad :: post) g
            = inl (bad, {| buf := buf g +++ concatAll (map importLine pre); pkg := pkg g |}).
Proof.
  intros Hpre Hbad. induction Hpre as [| e pre He _ IH]; intros g.
  - simpl. rewrite Hbad, append_nil_r. now destruct g.
  - cbn [app importLines]. destruct (Import env e); [| contradiction].
    rewrite IH. unfold Printf. cbn [buf pkg map concatAll fold_right].
    now rewrite append_assoc.
Qed.

Lemma importLines_cases (env : Env) (es : list string) :
  Forall (fun e => Import env e <> None) es
  \/ exists pre bad post,
       es = pre ++ bad :: post /\ Forall (fun e => Import env e <> None) pre /\
       Import env bad = None.
Proof.
  induction es as [| e es IH]; [left; constructor |].
  destruct (Import env e) eqn:E.
  - destruct IH as [IH | (pre & bad & post & -> & Hpre & Hbad)].
    + left. constructor; [congruence | exact IH].
    + right. exists (e :: pre), bad, post. repeat split; [| exact Hbad].
      constructor; [congruence | exact Hpre].
  - right. exists [], e, es. repeat split; [constructor | exact E].
Qed.

(** The four ways a run can go. *)
Lemma main_cases (env : Env) (inv : Invocation) :
  ((funcNames inv = "" \/ encodingPkgNames inv = "") /\ main env inv = stop 2 "" [PrintUsage])
  \/ (funcNames inv <> "" /\ encodingPkgNames inv <> "" /\
      exists doc log, main env inv = stop 1 doc log)
  \/ (exists d p, reaches env inv d p).
Proof.
  unfold main.
  destruct (String.length (funcNames inv) =? 0)%nat eqn:Hf.
  { left. split; [left; now destruct (funcNames inv) | reflexivity]. }
  destruct (String.length (encodingPkgNames inv) =? 0)%nat eqn:He.
  { left. split; [right; now destruct (encodingPkgNames inv) | reflexivity]. }
  apply length_zero_iff in Hf. apply length_zero_iff in He. cbn [orb].
  destruct (load env (sourceArgs inv)) as [[d p] |] eqn:Hl.
  - destruct (importLines_cases env (Split (encodingPkgNames inv)))
      as [Hall | (pre & bad & post & Hes & Hpre & Hbad)].
    + right. right. exists d, p. repeat split; assumption.
    + right. left. repeat split; try assumption.
      rewrite Hes, importLines_fail by assumption. eauto.
  - right. left. repeat split; try assumption. eauto.
Qed.

Lemma format_bytes (env : Env) (g : Generator) (log : list Event) :
  fst (format env g log) = outputBytes env (buf g).
Proof. unfold format, outputBytes. now destruct (Source env (buf g)). Qed.

Lemma finish_exit (env : Env) (inv : Invocation) (d : string) (st : Generator * list Event) :
  let out := finish env inv d st in
  let wrote := WriteFile env (outputName env inv d) (outputBytes env (buf (fst st))) in
  exitCode out = (if wrote then 0 else 1) /\
  written out = (if wrote then Some (outputName env inv d, outputBytes env (buf (fst st)))
                 else None).
Proof.
  destruct st as [g log]. cbv zeta. unfold finish. cbn [fst].
  rewrite <- (format_bytes env g log). destruct (format env g log) as [src log'].
  cbn [fst]. now destruct (WriteFile env (outputName env inv d) src).
Qed.

Lemma reaches_unique (env : Env) (inv : Invocation) (d d' : string) (p p' : Package) :
  reaches env inv d p -> reaches env inv d' p' -> d = d' /\ p = p'.
Proof. intros (_ & _ & H & _) (_ & _ & H' & _). rewrite H in H'. now inversion H'. Qed.

(** Once [flag.Parse] has returned, [main] exits with code 2 exactly when
    [-func] or [-encoding] is empty. *)
Lemma main_exit_two (env : Env) (inv : Invocation) :
  (exitCode (main env inv) = 2 <-> funcNames inv = "" \/ encodingPkgNames inv = "")
  /\ (exitCode (main env inv) = 2 -> main env inv = stop 2 "" [PrintUsage]).
Proof.
  destruct (main_cases env inv) as [[Hflag Hm] | [(Hf & He & doc & log & Hm) | (d & p & Hr)]].
  - rewrite Hm. split; [split; [intros _; exact Hflag | now intros _] | now intros _].
  - rewrite Hm. cbn [stop exitCode]. split; [split |]; try discriminate.
    intros [H | H]; contradiction.
  - pose proof (finish_exit env inv d
                  (generateFuncs env (Split (funcNames inv)) (Split (encodingPkgNames inv))
                                 (prepared inv p, []))) as [Hx _].
    rewrite <- (main_reaches Hr) in Hx. rewrite Hx.
    destruct Hr as (Hf & He & _).
    destruct (WriteFile _ _ _); (split; [split |]; try discriminate;
                                 intros [H | H]; contradiction).
Qed.

(** X8.  The process exits with code 2 exactly when [flag.Parse] ends it
    with that code or, the command line accepted, [-func] or [-encoding]
    is empty; either way the usage is printed and nothing is loaded,
    generated or written. *)
Theorem exit_two_iff_rejected_or_flag_missing (env : Env) (parsed : nat + Invocation) :
  (exitCode (process env parsed) = 2
   <-> parsed = inl 2 \/
       exists inv, parsed = inr inv /\ (funcNames inv = "" \/ encodingPkgNames inv = ""))
  /\ (exitCode (process env parsed) = 2 -> process env parsed = stop 2 "" [PrintUsage]).
Proof.
  destruct parsed as [code | inv]; cbn [process].
  - cbn [stop exitCode]. split; [split |].
    + intros ->. now left.
    + intros [H | (inv & H & _)]; [now inversion H | discriminate].
    + now intros ->.
  - destruct (main_exit_two env inv) as [Hiff Hstop]. split; [split |].
    + intros H. right. exists inv. split; [reflexivity | now apply Hiff].
    + intros [H | (inv' & H & Hflag)]; [discriminate |].
      inversion H. subst. now apply Hiff.
    + exact Hstop.
Qed.

(** X9.  A run exits with code 0 exactly when it reaches the generation
    loops (both flags set, the package loaded, every requested encoding
    package found) and the write of the formatted buffer, or of the
    buffer itself when formatting fails, succeeds. *)
Theorem exit_zero_iff (env : Env) (inv : Invocation) :
  exitCode (main env inv) = 0
  <-> exists d p,
      reaches env inv d p /\
      WriteFile env (outputName env inv d) (outputBytes env (document (main env inv))) = true.
Proof.
  assert (Hreach : forall d p, reaches env inv d p ->
            exitCode (main env inv)
            = if WriteFile env (outputName env inv d)
                           (outputBytes env (document (main env inv)))
              then 0 else 1).
  { intros d p Hr.
    pose proof (finish_exit env inv d
                  (generateFuncs env (Split (funcNames inv)) (Split (encodingPkgNames inv))
                                 (prepared inv p, []))) as [Hx _].
    pose proof (finish_document env inv d
                  (generateFuncs env (Split (funcNames inv)) (Split (encodingPkgNames inv))
                                 (prepared inv p, []))) as Hdoc.
    rewrite <- (main_reaches Hr) in Hx, Hdoc. now rewrite Hx, Hdoc. }
  split.
  - intros H0.
    destruct (main_cases env inv) as [[_ Hm] | [(_ & _ & doc & log & Hm) | (d & p & Hr)]].
    + rewrite Hm in H0. discriminate.
    + rewrite Hm in H0. discriminate.
    + exists d, p. split; [exact Hr |]. rewrite (Hreach d p Hr) in H0.
      now destruct (WriteFile _ _ _).
  - intros (d & p & Hr & Hw). now rewrite (Hreach d p Hr), Hw.
Qed.

(** X10.  A file is written exactly when the run exits with code 0, and
    then under the [-output] name, or [generated_handlers.go] joined to the
    source directory when the flag is empty, with the formatted buffer, or
    the buffer itself when formatting fails. *)
Theorem written_iff_exit_zero (env : Env) (inv : Invocation) :
  (written (main env inv) <> None <-> exitCode (main env inv) = 0)
  /\ (forall n src,
        written (main env inv) = Some (n, src) ->
        src = outputBytes env (document (main env inv)) /\
        exists d p, reaches env inv d p /\ n = outputName env inv d).
Proof.
  destruct (main_cases env inv) as [[Hflag Hm] | [(Hf & He & doc & log & Hm) | (d & p & Hr)]].
  - rewrite Hm. cbn [stop written exitCode]. split; [split; [congruence | discriminate] |].
    discriminate.
  - rewrite Hm. cbn [stop written exitCode]. split; [split; [congruence | discriminate] |].
    discriminate.
  - pose proof (finish_exit env inv d
                  (generateFuncs env (Split (funcNames inv)) (Split (encodingPkgNames inv))
                                 (prepared inv p, []))) as [Hx Hw].
    pose proof (finish_document env inv d
                  (generateFuncs env (Split (funcNames inv)) (Split (encodingPkgNames inv))
                                 (prepared inv p, []))) as Hdoc.
    rewrite <- (main_reaches Hr) in Hx, Hw, Hdoc. rewrite Hx, Hw, Hdoc.
    destruct (WriteFile _ _ _).
    + split; [split; [reflexivity | discriminate] |].
      intros n src H. inversion H. split; [reflexivity |]. now exists d, p.
    + split; [split; [congruence | discriminate] | discriminate].
Qed.

(** X11.  When a requested encoding package cannot be imported the run
    stops there with code 1: nothing is generated or written, and the
    buffer holds the header and the import lines of the packages
    requested before it. *)
Theorem missing_encoding_is_fatal (env : Env) (inv : Invocation) (d : string) (p : Package)
        (pre : list string) (bad : string) (post : list string) :
  funcNames inv <> "" -> encodingPkgNames inv <> "" ->
  load env (sourceArgs inv) = Some (d, p) ->
  Split (encodingPkgNames inv) = pre ++ bad :: post ->
  Forall (fun e => Import env e <> None) pre ->
  Import env bad = None ->
  main env inv
  = stop 1 (buf (header inv p) +++ concatAll (map importLine pre))
         [LogFatal ("cannot use pkg " +++ bad)].
Proof.
  intros Hf He Hl Hes Hpre Hbad. unfold main.
  apply length_zero_iff in Hf. apply length_zero_iff in He. rewrite Hf, He. cbn [orb].
  rewrite Hl, Hes, importLines_fail by assumption. reflexivity.
Qed.

Lemma missing_encoding_is_fatal_witness :
  let env := Examples.envOf [("jober.go", Examples.joberGo)] (fun s => Some s) in
  let inv := Examples.invocation "PutJob" "encoding/json,no/such,encoding/xml" in
  main env inv
  = stop 1 (buf (header inv (pkg (Examples.generatorOf [Examples.joberGo])))
            +++ concatAll (map importLine ["encoding/json"]))
         [LogFatal ("cannot use pkg " +++ "no/such")].
Proof.
  apply (@missing_encoding_is_fatal
           (Examples.envOf [("jober.go", Examples.joberGo)] (fun s => Some s))
           (Examples.invocation "PutJob" "encoding/json,no/such,encoding/xml") "."
           (pkg (Examples.generatorOf [Examples.joberGo]))
           ["encoding/json"] "no/such" ["encoding/xml"]).
  - discriminate.
  - discriminate.
  - reflexivity.
  - reflexivity.
  - repeat constructor. discriminate.
  - reflexivity.
Defined.

(** ** What a run logs *)

Lemma declDiag_perRequest (fn : string) (d : string * list Field) :
  Forall perRequest (declDiag fn d).
Proof.
  unfold declDiag. destruct (String.eqb (fst d) fn); [| constructor].
  destruct (negb _); [repeat constructor |].
  destruct (Type_ _); repeat constructor.
Qed.

Lemma generate_perRequest (fn enc : string) (st : Generator * list Event) :
  Forall perRequest (snd st) -> Forall perRequest (snd (generate fn enc st)).
Proof.
  destruct st as [g log]. intros H. rewrite generate_step. cbv zeta. cbn [snd].
  apply Forall_app. split; [exact H |]. unfold requestLog. apply Forall_app. split.
  - apply passDiags_all. intros f d _ _. apply declDiag_perRequest.
  - destruct (existsb flagged _); repeat constructor.
Qed.

Lemma generateFuncs_perRequest (env : Env) (fns es : list string) :
  forall st, Forall perRequest (snd st) ->
             Forall perRequest (snd (generateFuncs env fns es st)).
Proof.
  unfold generateFuncs. induction fns as [| fn fns IH]; intros st H; [exact H |].
  cbn [fold_left]. apply IH. clear IH. unfold generateEncodings.
  revert st H. induction es as [| e es IHe]; intros st H; [exact H |].
  cbn [fold_left]. apply IHe. now apply generate_perRequest.
Qed.

(** X12.  In a run that reaches the generation loops, everything logged
    before formatting is an arity, type-shape or not-found diagnostic, and
    the formatting warning is in the log exactly when [format.Source]
    rejects the buffer. *)
Theorem warning_iff_format_fails (env : Env) (inv : Invocation) (d : string) (p : Package) :
  reaches env inv d p ->
  (In LogFormatWarning (trace (main env inv))
   <-> Source env (document (main env inv)) = None)
  /\ exists log tail,
      trace (main env inv) = log ++ tail /\ Forall perRequest log /\
      Forall (fun e => ~ perRequest e) tail.
Proof.
  intros Hr. rewrite (main_reaches Hr), finish_document.
  pose proof (@generateFuncs_perRequest env (Split (funcNames inv))
                (Split (encodingPkgNames inv)) (prepared inv p, []) (Forall_nil _)) as Hlog.
  destruct (generateFuncs _ _ _ _) as [g log]. cbn [fst snd] in *.
  assert (Hno : ~ In LogFormatWarning log).
  { intros Hin. rewrite Forall_forall in Hlog. exact (Hlog _ Hin). }
  unfold finish, format.
  destruct (Source env (buf g)) as [src |];
    destruct (WriteFile env _ _); cbn [trace]; split.
  - split; [intros H; contradiction | discriminate].
  - exists log, []. rewrite app_nil_r. repeat split; [exact Hlog | constructor].
  - split; [| discriminate]. intros H. apply in_app_or in H as [H | [H | []]];
      [contradiction | discriminate].
  - exists log, [LogFatal "writing output"]. repeat split; [exact Hlog |].
    repeat constructor. now intros H.
  - split; [reflexivity |]. intros _. apply in_or_app. right. now left.
  - exists log, [LogFormatWarning]. repeat split; [exact Hlog |].
    repeat constructor. now intros H.
  - split; [reflexivity |]. intros _. rewrite <- app_assoc. apply in_or_app. right. now left.
  - exists log, [LogFormatWarning; LogFatal "writing output"]. rewrite <- app_assoc.
    repeat split; [exact Hlog |]. repeat constructor; now intros H.
Qed.

Lemma warning_iff_format_fails_witness :
  let env := Examples.envOf [("jober.go", Examples.joberGo)] (fun _ => None) in
  let inv := Examples.invocation "PutJob,Missing" "encoding/json" in
  (In LogFormatWarning (trace (main env inv))
   <-> Source env (document (main env inv)) = None)
  /\ exists log tail,
      trace (main env inv) = log ++ tail /\ Forall perRequest log /\
      Forall (fun e => ~ perRequest e) tail.
Proof.
  apply (@warning_iff_format_fails
           (Examples.envOf [("jober.go", Examples.joberGo)] (fun _ => None))
           (Examples.invocation "PutJob,Missing" "encoding/json") "."
           (pkg (Examples.generatorOf [Examples.joberGo]))).
  repeat split; try discriminate. repeat constructor; discriminate.
Defined.

(** ** Loading the package *)

Lemma parseNames_spec (env : Env) (names : list string) (asts : list Node) :
  parseNames env names = Some asts
  <-> Forall2 (fun n a => ParseFile env n = Some a) (filter isGo names) asts.
Proof.
  revert asts. induction names as [| n names IH]; intros asts.
  - simpl. split; [intros H; inversion H; constructor | intros H; now inversion H].
  - cbn [parseNames filter]. unfold isGo at 1.
    destruct (HasSuffix n ".go"); cbn [negb]; [| apply IH].
    destruct (ParseFile env n) as [a |] eqn:E.
    + destruct (parseNames env names) as [rest |] eqn:Er.
      * split.
        -- intros H. inversion H. subst. constructor; [exact E | now apply IH].
        -- intros H. inversion H as [| ? ? ? ? Ha Hrest]. subst.
           apply IH in Hrest. rewrite E in Ha. inversion Ha. now inversion Hrest.
      * split; [discriminate |].
        intros H. inversion H as [| ? ? ? ? Ha Hrest]. subst.
        apply IH in Hrest. discriminate.
    + split; [discriminate |].
      intros H. inversion H as [| ? ? ? ? Ha Hrest]. congruence.
Qed.

Lemma parsePackage_shape (env : Env) (directory : string) (names : list string)
      (p : Package) :
  parsePackage env directory names = Some p ->
  exists first more,
    Forall2 (fun n a => ParseFile env n = Some a) (filter isGo names) (first :: more) /\
    Check env (first :: more) = true /\
    p = {| dir := directory; name := fileName first;
           files := map newFile (first :: more) |}.
Proof.
  unfold parsePackage.
  destruct (parseNames env names) as [[| first more] |] eqn:E; try discriminate.
  destruct (Check env (first :: more)) eqn:Ec; [| discriminate].
  intros H. inversion H. exists first, more. repeat split; [| exact Ec].
  now apply parseNames_spec.
Qed.

Lemma load_parsed (env : Env) (args : list string) (d : string) (p : Package) :
  load env args = Some (d, p) ->
  exists directory names, parsePackage env directory names = Some p.
Proof.
  unfold load, parsePackageDir, parsePackageFiles.
  destruct args as [| a [| b rest]].
  - destruct (parsePackage env "." []) eqn:E; [| discriminate].
    intros H. inversion H. subst. eauto.
  - destruct (isDir env a) as [[|] |]; try discriminate.
    + destruct (ImportDir env a) as [names |]; [| discriminate].
      destruct (parsePackage env a _) eqn:E; [| discriminate].
      intros H. inversion H. subst. eauto.
    + destruct (parsePackage env "." [a]) eqn:E; [| discriminate].
      intros H. inversion H. subst. eauto.
  - destruct (parsePackage env "." (a :: b :: rest)) eqn:E; [| discriminate].
    intros H. inversion H. subst. eauto.
Qed.

Lemma load_fresh (env : Env) (args : list string) (d : string) (p : Package) :
  load env args = Some (d, p) -> fresh (files p).
Proof.
  intros H. apply load_parsed in H as (directory & names & H).
  apply parsePackage_shape in H as (first & more & _ & _ & ->).
  unfold fresh. cbn [files]. apply Forall_map. apply Forall_forall. now intros.
Qed.

(** X13.  [parsePackage] succeeds exactly when the names ending in [.go]
    are not empty, each of them parses, and the parsed files type-check
    together; the package then is named after the first parsed file and
    holds one file per such name, in order, with the per-request fields
    empty.  Names with another suffix are never parsed. *)
Theorem parsePackage_some_iff (env : Env) (directory : string) (names : list string)
        (p : Package) :
  parsePackage env directory names = Some p
  <-> exists first more,
      Forall2 (fun n a => ParseFile env n = Some a) (filter isGo names) (first :: more) /\
      Check env (first :: more) = true /\
      p = {| dir := directory; name := fileName first;
             files := map newFile (first :: more) |}.
Proof.
  split; [apply parsePackage_shape |].
  intros (first & more & Hp & Hc & ->). unfold parsePackage.
  apply parseNames_spec in Hp. now rewrite Hp, Hc.
Qed.

(** X14.  However the command line names the sources, a package that is
    loaded has at least one file, every file has its syntax tree, and no
    file has its [found] flag up, a name or a resolved type. *)
Theorem loaded_package_is_fresh (env : Env) (args : list string) (d : string) (p : Package) :
  load env args = Some (d, p) ->
  files p <> [] /\
  fresh (files p) /\
  Forall (fun f => file f <> None /\ funcName f = "" /\ paramfullname f = "") (files p).
Proof.
  intros H. split; [| split; [exact (load_fresh _ _ H) |]];
    apply load_parsed in H as (directory & names & H);
    apply parsePackage_shape in H as (first & more & _ & _ & ->); cbn [files].
  - discriminate.
  - apply Forall_map. apply Forall_forall. intros a _. cbn. repeat split. discriminate.
Qed.

Lemma loaded_package_is_fresh_witness :
  let p := pkg (Examples.generatorOf [Examples.joberGo; Examples.importGo]) in
  files p <> [] /\
  fresh (files p) /\
  Forall (fun f => file f <> None /\ funcName f = "" /\ paramfullname f = "") (files p).
Proof.
  apply (@loaded_package_is_fresh
           (Examples.envOf [("jober.go", Examples.joberGo); ("import.go", Examples.importGo);
                            ("asm.s", OtherNode [])] (fun s => Some s))
           ["."] "."
           (pkg (Examples.generatorOf [Examples.joberGo; Examples.importGo]))).
  reflexivity.
Defined.

(** ** A run for one function *)

(** X15.  A run that reaches the generation loops with a single function
    name leaves in the buffer the header, the import lines and, when some
    declaration of that name resolves, one adapter per requested encoding,
    all rendered with the last type resolved over the files in order;
    when none resolves, nothing more. *)
Theorem single_function_run (env : Env) (inv : Invocation) (d : string) (p : Package)
        (fn : string) :
  reaches env inv d p ->
  Split (funcNames inv) = [fn] ->
  document (main env inv)
  = buf (prepared inv p)
    +++ match allResolved fn (files p) with
        | [] => ""
        | ts => render (adapters env fn (last ts "") (Split (encodingPkgNames inv)))
        end.
Proof.
  intros Hr Hfn. rewrite (main_reaches Hr), finish_document, Hfn.
  unfold generateFuncs. cbn [fold_left]. rewrite generateEncodings_buf.
  destruct Hr as (_ & _ & Hl & _). apply load_fresh in Hl.
  unfold requestText. cbn [prepared pkg].
  rewrite fresh_found, fresh_lastFlagged by exact Hl.
  destruct (allResolved fn (files p)); reflexivity.
Qed.

Lemma single_function_run_witness :
  let env := Examples.envOf [("jober.go", Examples.joberGo)] (fun s => Some s) in
  let inv := Examples.invocation "PutJob" "encoding/json,encoding/xml" in
  document (main env inv)
  = buf (prepared inv (pkg (Examples.generatorOf [Examples.joberGo])))
    +++ render (adapters env "PutJob" "job" ["encoding/json"; "encoding/xml"]).
Proof.
  apply (@single_function_run
           (Examples.envOf [("jober.go", Examples.joberGo)] (fun s => Some s))
           (Examples.invocation "PutJob" "encoding/json,encoding/xml") "."
           (pkg (Examples.generatorOf [Examples.joberGo])) "PutJob").
  - repeat split; try discriminate. repeat constructor; discriminate.
  - reflexivity.
Defined.

(** ** The adapter on a request that decodes *)

(** X16.  What an adapter does with a request is decided by the decoder
    alone.  When it fails: status 400 and nothing else.  When it succeeds:
    one call of the function with the decoded value, then the header,
    then the encoding, and nothing else; the header is the second result
    of the call and the encoded value the first. *)
Theorem adapter_serves (rt : Adapter.Runtime) (h : Handler) :
  Adapter.serve rt h
  = match Adapter.Decode rt (EncodingPkg h) (Adapter.VZero (T h)) with
    | None => [ Adapter.HeaderWritten (Adapter.VInt 400) ]
    | Some v =>
        [ Adapter.Invoked (Func h) [v];
          Adapter.HeaderWritten (snd (Adapter.Call rt (Func h) [v]));
          Adapter.Encoded (EncodingPkg h) (fst (Adapter.Call rt (Func h) [v])) ]
    end.
Proof.
  unfold Adapter.serve. simpl.
  destruct (Adapter.Decode rt (EncodingPkg h) (Adapter.VZero (T h))) as [v |];
    [| reflexivity].
  simpl. destruct (Adapter.Call rt (Func h) [v]) as [a b]. reflexivity.
Qed.

(** ** The last file of the package *)

(** X17.  A name that resolves in the last file of the package is always
    rendered with the type resolved there, whatever flags and types the
    earlier requests left in the files. *)
Theorem last_file_decides (fn enc : string) (g : Generator) (log : list Event)
        (fs : list File) (f : File) :
  files (pkg g) = fs ++ [f] ->
  resolved fn (fileDecls f) <> [] ->
  buf (fst (generate fn enc (g, log)))
  = buf g +++ Execute handlerWrap
                {| Func := fn; EncodingPkg := enc;
                   T := last (resolved fn (fileDecls f)) "" |}.
Proof.
  intros Hfs Hres. rewrite generate_step. cbv zeta. cbn [fst buf]. rewrite Hfs, map_app.
  assert (Hfl : flagged (walked fn f) = true).
  { rewrite flagged_walked. destruct (resolved fn (fileDecls f)); [contradiction |].
    apply orb_true_r. }
  rewrite existsb_app. cbn [map existsb]. rewrite Hfl, orb_true_r. cbn [orb].
  unfold lastFlagged. rewrite fold_left_app. cbn [fold_left]. rewrite Hfl.
  rewrite paramfullname_walked.
  now rewrite (@last_default _ (resolved fn (fileDecls f)) (paramfullname f) "" Hres).
Qed.

Lemma last_file_decides_witness :
  let g := fst (generate "Get" "json"
                  (Examples.generatorOf [Examples.otherGo; Examples.joberGo], [])) in
  buf (fst (generate "PutJob" "json" (g, [])))
  = buf g +++ Execute handlerWrap {| Func := "PutJob"; EncodingPkg := "json"; T := "job" |}.
Proof.
  apply (@last_file_decides "PutJob" "json"
           (fst (generate "Get" "json"
                   (Examples.generatorOf [Examples.otherGo; Examples.joberGo], []))) []
           [walked "Get" (newFile Examples.otherGo)]
           (walked "Get" (newFile Examples.joberGo))).
  - reflexivity.
  - discriminate.
Defined.

(** ** Names that are not Go files *)

Lemma length_append (a b : string) :
  String.length (a +++ b) = String.length a + String.length b.
Proof. induction a as [| c a IH]; simpl; [reflexivity | now rewrite IH]. Qed.

Lemma substring_skip (a b : string) (m : nat) :
  substring (String.length a) m (a +++ b) = substring 0 m b.
Proof. induction a as [| c a IH]; simpl; [reflexivity | exact IH]. Qed.

Lemma substring_all (b : string) : substring 0 (String.length b) b = b.
Proof. induction b as [| c b IH]; simpl; [reflexivity | now rewrite IH]. Qed.

Lemma substring_split (n : nat) :
  forall s, n <= String.length s ->
            s = substring 0 n s +++ substring n (String.length s - n) s.
Proof.
  induction n as [| n IH]; intros s H.
  - rewrite Nat.sub_0_r, substring_all. now destruct s.
  - destruct s as [| c s]; simpl in H; [lia |].
    simpl. f_equal. apply IH. lia.
Qed.

Lemma HasSuffix_spec (s suffix : string) :
  HasSuffix s suffix = true <-> exists pre, s = pre +++ suffix.
Proof.
  unfold HasSuffix. rewrite andb_true_iff, Nat.leb_le, String.eqb_eq. split.
  - intros [Hle Hsub]. exists (substring 0 (String.length s - String.length suffix) s).
    assert (Hn : String.length s - String.length suffix <= String.length s) by lia.
    pose proof (@substring_split (String.length s - String.length suffix) s Hn) as Hs.
    replace (String.length s - (String.length s - String.length suffix))
      with (String.length suffix) in Hs by lia.
    now rewrite Hsub in Hs.
  - intros (pre & ->). rewrite length_append. split; [lia |].
    replace (String.length pre + String.length suffix - String.length suffix)
      with (String.length pre) by lia.
    now rewrite substring_skip, substring_all.
Qed.

Lemma parseNames_skips (env : Env) (n : string) (before after : list string) :
  isGo n = false ->
  parseNames env (before ++ n :: after) = parseNames env (before ++ after).
Proof.
  intros Hn. induction before as [| b before IH].
  - cbn [app parseNames]. unfold isGo in Hn. now rewrite Hn.
  - cbn [app parseNames]. rewrite IH. reflexivity.
Qed.

(** X18.  A name that does not end in [.go] (an assembly file listed by
    the build package, say) plays no part in loading the package: with or
    without it in the list, [parsePackage] gives the same result. *)
Theorem parsePackage_skips_other_files (env : Env) (directory n : string)
        (before after : list string) :
  (forall pre, n <> pre +++ ".go") ->
  parsePackage env directory (before ++ n :: after)
  = parsePackage env directory (before ++ after).
Proof.
  intros Hn. unfold parsePackage. rewrite parseNames_skips; [reflexivity |].
  unfold isGo. destruct (HasSuffix n ".go") eqn:E; [| reflexivity].
  apply HasSuffix_spec in E as (pre & E). now destruct (Hn pre).
Qed.

Lemma not_go_suffix : forall pre, "asm.s" <> pre +++ ".go".
Proof.
  intros pre H.
  assert (E : HasSuffix "asm.s" ".go" = true) by (apply HasSuffix_spec; now exists pre).
  discriminate E.
Defined.

Lemma parsePackage_skips_other_files_witness :
  let env := Examples.envOf [("jober.go", Examples.joberGo)] (fun s => Some s) in
  parsePackage env "." (["jober.go"] ++ "asm.s" :: [])
  = parsePackage env "." (["jober.go"] ++ []).
Proof.
  apply (@parsePackage_skips_other_files
           (Examples.envOf [("jober.go", Examples.joberGo)] (fun s => Some s))
           "." "asm.s" ["jober.go"] []).
  exact not_go_suffix.
Defined.
